(** * Drowsy-Visiom: the detection state machine and its alert dispatch

    A shallow embedding of [drowsiness_detector.py], of [send_alert] in
    [email_notifier.py], of the video feed in [web_interface.py] and of the
    parts of [config.py] they read.

    Numbers.  Python [float] and [numpy.float64] are IEEE-754 binary64 and are
    modelled by Rocq's primitive [float], operation by operation.  Python
    [int] is [Z]; where Python compares a [float] with an [int] the
    comparison is the exact one, without a conversion.
    [scipy.spatial.distance.euclidean] on integer arrays returns a
    [numpy.float64], so the arithmetic of [calculate_ear] is numpy's: a
    division by zero yields an infinity or a NaN (with a warning), it does
    not raise.  The division of [get_statistics] is Python's own, which
    raises on a zero divisor.

    Effects.  The detector object is a record that is passed explicitly;
    what a call starts or shows (threads, windows) is returned as a list of
    effects in program order.  Drawing on the frame is not modelled, nor is
    what a started thread does afterwards; the clock is read once per
    frame. *)

From Stdlib Require Import String.
From Stdlib Require Import ZArith List Bool Lia.
From Stdlib Require Import Floats.
Import ListNotations.

Local Open Scope Z_scope.

(** ** config.py *)

Record Config := mkConfig {
  EAR_THRESHOLD : float;
  DROWSINESS_FRAMES_THRESHOLD : Z;
  AUDIO_ALERT_COOLDOWN : Z;
  EMAIL_ALERT_COOLDOWN : Z
}.

(** The values [config.py] ships with. *)
Definition default_config : Config :=
  {| EAR_THRESHOLD := 0.25%float;
     DROWSINESS_FRAMES_THRESHOLD := 20;
     AUDIO_ALERT_COOLDOWN := 5;
     EMAIL_ALERT_COOLDOWN := 60 |}.

(** ** Exceptions *)

(** An exception raised by the interpreter or by a library call
    ([smtplib], [socket], [ssl], [email.mime], [datetime]); all of them
    derive from [Exception]. *)
Inductive exn : Type :=
| Exception (description : String.string).

Inductive result (A : Type) : Type :=
| Return (a : A)
| Raise (e : exn).
Arguments Return {A} a.
Arguments Raise {A} e.

Definition bind {A B} (m : result A) (k : A -> result B) : result B :=
  match m with
  | Return a => k a
  | Raise e => Raise e
  end.

Notation "x <- m ;; k" := (bind m (fun x => k))
  (at level 61, m at next level, right associativity).

(** [try: body except Exception as e: handler e]. *)
Definition try_except {A} (body : result A) (handler : exn -> result A)
    : result A :=
  match body with
  | Return a => Return a
  | Raise e => handler e
  end.

(** ** Numbers *)

(** numpy's [astype(float)] on an element of an integer array: the binary64
    nearest to it, ties to even (exact below [2^53]).  An element of an
    [int64] array is below [2^63] in absolute value, and that is the range
    the definition is meant for; it is not used for Python's unbounded
    [int]. *)
Definition float_of_int (z : Z) : float :=
  match z with
  | Z0 => 0%float
  | Zpos _ => of_uint63 (Uint63.of_Z z)
  | Zneg p => (- of_uint63 (Uint63.of_Z (Zpos p)))%float
  end.

(** [float(n)] for a Python [int], which is also the conversion Python
    applies to the [int] operand of mixed arithmetic: the nearest binary64,
    ties to even, and [OverflowError] beyond the range of binary64. *)
Definition py_float_of_int (z : Z) : result float :=
  let f := SF2Prim (binary_normalize prec emax z 0 false) in
  if is_infinity f then Raise (Exception "OverflowError") else Return f.

(** [x > y] of Python, on floats. *)
Definition gtb (x y : float) : bool := (y <? x)%float.

(** [x > n] of Python for a [float] [x] and an [int] [n]
    ([float_richcompare]).  A finite [x] is compared with [n] exactly, as
    the rational number it is: with [x = v * 2^e], the test is
    [n < v * 2^e] for [e >= 0] and [n * 2^(-e) < v] for [e < 0]; nothing is
    rounded.  An infinite or NaN [x] is compared with [0.0] instead. *)
Definition float_gt_int (x : float) (n : Z) : bool :=
  match Prim2SF x with
  | S754_nan => false
  | S754_infinity s => negb s
  | S754_zero _ => n <? 0
  | S754_finite s m e =>
      let v := if s then Zneg m else Zpos m in
      match e with
      | Zneg k => n * 2 ^ Zpos k <? v
      | _ => n <? v * 2 ^ e
      end
  end.

(** [x / y] on [numpy.float64]: the IEEE-754 division.  A zero divisor
    gives an infinity or a NaN and a [RuntimeWarning]; nothing is raised. *)
Definition np_divide (x y : float) : float := (x / y)%float.

(** ** Geometry: [calculate_ear] *)

Definition point : Type := Z * Z.

(** One eye: a numpy array of shape (6,2); [lm i] is [eye_landmarks[i]]. *)
Record Eye := mkEye {
  lm0 : point; lm1 : point; lm2 : point;
  lm3 : point; lm4 : point; lm5 : point
}.

(** [dist.euclidean(u, v)] for integer vectors: the difference [u - v] is
    taken on the integers and converted to binary64, and the 2-norm is
    [sqrt(x.dot(x))], the square root of the dot product
    [dx*dx + dy*dy].  numpy hands the dot product to the BLAS it was built
    with, which may round each product and the sum (as here) or fuse a
    product into the sum; all of them give the same binary64 when the
    squares and their sum are integers below [2^53], which is the case for
    [|dx|, |dy| < 2^26].  Beyond that the result here can differ from a given
    BLAS by one unit in the last place. *)
Definition euclidean (u v : point) : float :=
  let dx := float_of_int (fst u - fst v) in
  let dy := float_of_int (snd u - snd v) in
  sqrt (dx * dx + dy * dy)%float.

Definition calculate_ear (eye_landmarks : Eye) : float :=
  let A := euclidean (lm1 eye_landmarks) (lm5 eye_landmarks) in
  let B := euclidean (lm2 eye_landmarks) (lm4 eye_landmarks) in
  let C := euclidean (lm0 eye_landmarks) (lm3 eye_landmarks) in
  np_divide (A + B) (2 * C)%float.

(** A dlib [full_object_detection] of the 68-point model: [landmarks i] is
    [landmarks.part(i)]. *)
Definition Shape : Type := nat -> point.

Definition extract_eye_landmarks (landmarks : Shape) : Eye * Eye :=
  (mkEye (landmarks 36%nat) (landmarks 37%nat) (landmarks 38%nat)
         (landmarks 39%nat) (landmarks 40%nat) (landmarks 41%nat),
   mkEye (landmarks 42%nat) (landmarks 43%nat) (landmarks 44%nat)
         (landmarks 45%nat) (landmarks 46%nat) (landmarks 47%nat)).

(** Lines 131-136 of [process_frame]: the EAR of one detected face. *)
Definition face_ear (landmarks : Shape) : float :=
  let '(left_eye, right_eye) := extract_eye_landmarks landmarks in
  let left_ear := calculate_ear left_eye in
  let right_ear := calculate_ear right_eye in
  np_divide (left_ear + right_ear) 2%float.

(** ** The detector object *)

Record Detector := mkDetector {
  is_drowsy : bool;
  eye_closed_frames : Z;
  last_alert_time : float;
  last_email_time : float;
  running : bool;
  total_frames : Z;
  drowsy_detections : Z;
  session_start_time : float
}.

(** [DrowsinessDetector.__init__], created at clock reading [t0]. *)
Definition init (t0 : float) : Detector :=
  {| is_drowsy := false;
     eye_closed_frames := 0;
     last_alert_time := 0%float;
     last_email_time := 0%float;
     running := false;
     total_frames := 0;
     drowsy_detections := 0;
     session_start_time := t0 |}.

Definition set_is_drowsy (b : bool) (d : Detector) : Detector :=
  mkDetector b (eye_closed_frames d) (last_alert_time d) (last_email_time d)
             (running d) (total_frames d) (drowsy_detections d)
             (session_start_time d).

Definition set_eye_closed_frames (n : Z) (d : Detector) : Detector :=
  mkDetector (is_drowsy d) n (last_alert_time d) (last_email_time d)
             (running d) (total_frames d) (drowsy_detections d)
             (session_start_time d).

Definition set_last_alert_time (t : float) (d : Detector) : Detector :=
  mkDetector (is_drowsy d) (eye_closed_frames d) t (last_email_time d)
             (running d) (total_frames d) (drowsy_detections d)
             (session_start_time d).

Definition set_last_email_time (t : float) (d : Detector) : Detector :=
  mkDetector (is_drowsy d) (eye_closed_frames d) (last_alert_time d) t
             (running d) (total_frames d) (drowsy_detections d)
             (session_start_time d).

Definition set_running (b : bool) (d : Detector) : Detector :=
  mkDetector (is_drowsy d) (eye_closed_frames d) (last_alert_time d)
             (last_email_time d) b (total_frames d) (drowsy_detections d)
             (session_start_time d).

Definition set_total_frames (n : Z) (d : Detector) : Detector :=
  mkDetector (is_drowsy d) (eye_closed_frames d) (last_alert_time d)
             (last_email_time d) (running d) n (drowsy_detections d)
             (session_start_time d).

Definition set_drowsy_detections (n : Z) (d : Detector) : Detector :=
  mkDetector (is_drowsy d) (eye_closed_frames d) (last_alert_time d)
             (last_email_time d) (running d) (total_frames d) n
             (session_start_time d).

(** What a call makes visible outside the detector, in program order. *)
Inductive effect : Type :=
| DrowsyOnset
    (* process_frame enters handle_drowsiness_detection (line 154) *)
| PlayAlert (now : float)
    (* a thread running audio_alert.play_alert is started (line 189) *)
| SendAlert (now : float)
    (* the snapshot is written and a thread running
       email_notifier.send_alert(snapshot_path, now) is started
       (lines 194-202) *).

Definition is_onset (e : effect) : bool :=
  match e with DrowsyOnset => true | _ => false end.

Definition count_if {A} (p : A -> bool) (l : list A) : Z :=
  Z.of_nat (length (filter p l)).

Definition onsets (l : list effect) : Z := count_if is_onset l.

(** ** Alert dispatch: [handle_drowsiness_detection] *)

(** Lines 188 and 193: [current_time - self.last_alert_time] is a [float],
    the cooldown an [int]. *)
Definition audio_due (cfg : Config) (now : float) (d : Detector) : bool :=
  float_gt_int (now - last_alert_time d)%float (AUDIO_ALERT_COOLDOWN cfg).

Definition email_due (cfg : Config) (now : float) (d : Detector) : bool :=
  float_gt_int (now - last_email_time d)%float (EMAIL_ALERT_COOLDOWN cfg).

(** [now] is what [time.time()] returns at line 185. *)
Definition handle_drowsiness_detection (cfg : Config) (now : float)
    (d : Detector) : Detector * list effect :=
  let '(d1, out1) :=
    if audio_due cfg now d
    then (set_last_alert_time now d, [PlayAlert now])
    else (d, []) in
  let '(d2, out2) :=
    if email_due cfg now d1
    then (set_last_email_time now d1, [SendAlert now])
    else (d1, []) in
  (d2, out1 ++ out2).

(** ** The per-frame state machine: [process_frame] *)

(** Lines 146-164, the body of the loop over faces once [current_ear] is
    known. *)
Definition check_drowsiness (cfg : Config) (now : float)
    (current_ear : float) (d : Detector) : Detector * list effect :=
  if (current_ear <? EAR_THRESHOLD cfg)%float then
    let d1 := set_eye_closed_frames (eye_closed_frames d + 1) d in
    if DROWSINESS_FRAMES_THRESHOLD cfg <=? eye_closed_frames d1 then
      if negb (is_drowsy d1) then
        let d2 := set_is_drowsy true d1 in
        let d3 := set_drowsy_detections (drowsy_detections d2 + 1) d2 in
        let '(d4, out) := handle_drowsiness_detection cfg now d3 in
        (d4, DrowsyOnset :: out)
      else (d1, [])
    else (d1, [])
  else
    (set_is_drowsy false (set_eye_closed_frames 0 d), []).

(** The loop [for face in faces] over the per-face EAR values. *)
Fixpoint check_faces (cfg : Config) (now : float) (ears : list float)
    (d : Detector) : Detector * list effect :=
  match ears with
  | [] => (d, [])
  | current_ear :: rest =>
      let '(d1, out1) := check_drowsiness cfg now current_ear d in
      let '(d2, out2) := check_faces cfg now rest d1 in
      (d2, out1 ++ out2)
  end.

(** One camera frame as the detector sees it: the shapes the predictor
    returns for the detected faces, in detection order, and the clock
    reading during the frame. *)
Record Frame := mkFrame {
  faces : list Shape;
  clock : float
}.

Definition process_frame (cfg : Config) (frame : Frame) (d : Detector)
    : Detector * list effect :=
  check_faces cfg (clock frame) (map face_ear (faces frame)) d.

(** Successive calls of [process_frame]; the effects of each frame are kept
    apart. *)
Fixpoint process_frames (cfg : Config) (frames : list Frame) (d : Detector)
    : Detector * list (list effect) :=
  match frames with
  | [] => (d, [])
  | frame :: rest =>
      let '(d1, out) := process_frame cfg frame d in
      let '(d2, outs) := process_frames cfg rest d1 in
      (d2, out :: outs)
  end.

(** ** The detection loop: [start_detection], [stop_detection] *)

(** What one iteration of [while self.running] reads from outside: the
    result of [cap.read()] and of [cv2.waitKey(1)]. *)
Record Iteration := mkIteration {
  ret : bool;
  frame : Frame;
  key : Z
}.

(** The detector together with what the threads of a session share besides
    it: [cap_open] holds while the camera is open, [looping] while the
    worker is inside the [while] loop of [start_detection]. *)
Record Session := mkSession {
  det : Detector;
  cap_open : bool;
  looping : bool
}.

Definition ord_q : Z := 113.
Definition ord_s : Z := 115.

(** What a session makes visible: the effects of [process_frame], the
    display of a processed frame by the loop (line 226), a screenshot
    (line 236), the final [cleanup], and a frame handed to the video feed
    of the web interface. *)
Inductive loop_effect : Type :=
| Emitted (e : effect)
| ShowFrame
| SaveScreenshot
| Cleanup
| YieldFrame.

Definition is_show (e : loop_effect) : bool :=
  match e with ShowFrame => true | _ => false end.

(** One pass through the loop body, lines 214-237; the loop is left when
    [running] is false, when the read fails, or on the key [q], and
    [cleanup] then releases the camera. *)
Definition loop_iteration (cfg : Config) (it : Iteration) (s : Session)
    : Session * list loop_effect :=
  if negb (looping s) then (s, [])
  else if negb (running (det s)) then (mkSession (det s) false false, [Cleanup])
  else if negb (ret it) then (mkSession (det s) false false, [Cleanup])
  else
    let d1 := set_total_frames (total_frames (det s) + 1) (det s) in
    let '(d2, out) := process_frame cfg (frame it) d1 in
    let shown := map Emitted out ++ [ShowFrame] in
    let pressed := Z.land (key it) 255 in
    if pressed =? ord_q then
      (mkSession d2 false false, shown ++ [Cleanup])
    else if pressed =? ord_s then
      (mkSession d2 true true, shown ++ [SaveScreenshot])
    else (mkSession d2 true true, shown).

Definition stop_detection (d : Detector) : Detector := set_running false d.

(** One pass of [generate_frames] in [web_interface.py]: with the camera
    open and a frame read, the frame goes through [process_frame] of the
    shared detector and is handed to the client. *)
Definition generate_frame (cfg : Config) (read_ok : bool) (fr : Frame)
    (s : Session) : Session * list loop_effect :=
  if cap_open s && read_ok then
    let '(d1, out) := process_frame cfg fr (det s) in
    (mkSession d1 (cap_open s) (looping s), map Emitted out ++ [YieldFrame])
  else (s, []).

(** ** Statistics: [get_statistics] *)

Record Statistics := mkStatistics {
  stat_session_time : float;
  stat_total_frames : Z;
  stat_drowsy_detections : Z;
  stat_current_status : String.string;
  stat_fps : float
}.

(** Python's [max(a, 1)] for a float [a]: the second argument is taken
    only when it is greater than the first. *)
Definition py_max_1 (a : float) : float :=
  if gtb 1 a then 1%float else a.

(** Python's true division: [ZeroDivisionError] on a zero divisor. *)
Definition py_truediv (x y : float) : option float :=
  if (y =? 0)%float then None else Some (x / y)%float.

(** [now] is what [time.time()] returns at line 257; [None] stands for an
    exception leaving the function.  In [self.total_frames / max(...)] the
    [int] is converted as [float(n)] is. *)
Definition get_statistics (now : float) (d : Detector) : option Statistics :=
  let session_time := (now - session_start_time d)%float in
  match py_float_of_int (total_frames d) with
  | Raise _ => None
  | Return frames =>
      match py_truediv frames (py_max_1 session_time) with
      | None => None
      | Some fps =>
          Some {| stat_session_time := session_time;
                  stat_total_frames := total_frames d;
                  stat_drowsy_detections := drowsy_detections d;
                  stat_current_status :=
                    if is_drowsy d then "Drowsy"%string else "Alert"%string;
                  stat_fps := fps |}
      end
  end.

(** What the threads of a session do to the shared detector: the worker
    enters the loop ([start_detection], which opens the camera first and
    gives up when that fails; a second worker beside a running one is not
    modelled), the worker runs an iteration, another thread calls
    [stop_detection] or [get_statistics], or the video feed takes a frame. *)
Inductive operation : Type :=
| StartDetection (camera_ok : bool)
| LoopIteration (it : Iteration)
| StopDetection
| GetStatistics (now : float)
| VideoFeed (read_ok : bool) (fr : Frame).

Definition session_step (cfg : Config) (op : operation) (s : Session)
    : Session * list loop_effect :=
  match op with
  | StartDetection camera_ok =>
      if looping s then (s, [])
      else if camera_ok then
        (mkSession (set_running true (det s)) true true, [])
      else (s, [])
  | LoopIteration it => loop_iteration cfg it s
  | StopDetection =>
      (mkSession (stop_detection (det s)) (cap_open s) (looping s), [])
  | GetStatistics _ => (s, [])
  | VideoFeed read_ok fr => generate_frame cfg read_ok fr s
  end.

Fixpoint session_run (cfg : Config) (ops : list operation) (s : Session)
    : Session * list loop_effect :=
  match ops with
  | [] => (s, [])
  | op :: rest =>
      let '(s1, out1) := session_step cfg op s in
      let '(s2, out2) := session_run cfg rest s1 in
      (s2, out1 ++ out2)
  end.

Definition new_session (t0 : float) : Session :=
  mkSession (init t0) false false.

Definition is_emitted (p : effect -> bool) (e : loop_effect) : bool :=
  match e with Emitted e' => p e' | _ => false end.

(** ** email_notifier.py: [send_alert] *)

Record EmailNotifier := mkEmailNotifier {
  smtp_server : String.string;
  smtp_port : Z;
  sender_email : String.string;
  sender_password : String.string;
  receiver_email : String.string
}.

(** How the calls that leave the process turn out for one [send_alert]. *)
Record MailWorld := mkMailWorld {
  create_message : result unit;   (* self.create_message(...): the MIME message *)
  smtp_connect : result unit;     (* smtplib.SMTP(server, port) *)
  smtp_starttls : result unit;    (* server.starttls() *)
  smtp_login : result unit;       (* server.login(...) *)
  smtp_send_message : result unit;(* server.send_message(msg) *)
  smtp_exit : result unit         (* SMTP.__exit__: QUIT and close *)
}.

(** Truth value of a Python [str]. *)
Definition truthy (s : String.string) : bool :=
  negb (String.eqb s String.EmptyString).

(** [with smtplib.SMTP(...) as server: body]: [__exit__] runs whether or
    not the body raised; an exception of the body is re-raised unless
    [__exit__] raises one of its own. *)
Definition with_smtp (w : MailWorld) (body : result unit) : result unit :=
  _ <- smtp_connect w ;;
  match body with
  | Return _ => smtp_exit w
  | Raise e => _ <- smtp_exit w ;; Raise e
  end.

Definition send_alert (self : EmailNotifier) (w : MailWorld) : result bool :=
  try_except
    (if negb (forallb truthy
                [sender_email self; sender_password self; receiver_email self])
     then Return false
     else
       _ <- create_message w ;;
       _ <- with_smtp w (_ <- smtp_starttls w ;;
                         _ <- smtp_login w ;;
                         smtp_send_message w) ;;
       Return true)
    (fun _ => Return false).

(** ** Concrete inputs used by the examples below *)

(** The scenario of the specification: thresholds 0.25 and 3. *)
Definition scenario_config : Config :=
  {| EAR_THRESHOLD := 0.25%float;
     DROWSINESS_FRAMES_THRESHOLD := 3;
     AUDIO_ALERT_COOLDOWN := 5;
     EMAIL_ALERT_COOLDOWN := 60 |}.

(** An eye whose lids are [a] and [b] pixels apart and whose corners are
    [c] pixels apart: its EAR is [(a + b) / (2 c)]. *)
Definition eye_of (a b c : Z) : Eye :=
  mkEye (0, 0) (1, 0) (2, 0) (c, 0) (2, b) (1, a).

(** A shape with the given eyes at parts 36-41 and 42-47. *)
Definition shape_of (l r : Eye) : Shape :=
  fun i =>
    nth (i - 36)
        [lm0 l; lm1 l; lm2 l; lm3 l; lm4 l; lm5 l;
         lm0 r; lm1 r; lm2 r; lm3 r; lm4 r; lm5 r] (0, 0).

Definition face_of (a b c : Z) : Shape := shape_of (eye_of a b c) (eye_of a b c).

(** Faces with EAR 0.30, 0.20, 0.18 and 0.19. *)
Definition face_030 : Shape := face_of 3 3 10.
Definition face_020 : Shape := face_of 2 2 10.
Definition face_018 : Shape := face_of 4 5 25.
Definition face_019 : Shape := face_of 9 10 50.

Definition scenario_frames : list Frame :=
  [mkFrame [face_030] 1700000000%float;
   mkFrame [face_020] 1700000001%float;
   mkFrame [face_018] 1700000002%float;
   mkFrame [face_019] 1700000003%float;
   mkFrame [face_030] 1700000004%float].

(** The EAR sequence of the scenario, one face per frame; each literal
    denotes the binary64 nearest to it, as it does in Python. *)
#[local] Set Warnings "-inexact-float".
Definition scenario_ears : list (list float) :=
  [[0.30]; [0.20]; [0.18]; [0.19]; [0.30]]%float.
#[local] Set Warnings "inexact-float".

(** The per-frame EAR values of a list of frames. *)
Definition ears_of (frames : list Frame) : list (list float) :=
  map (fun fr => map face_ear (faces fr)) frames.

(** A face counts towards drowsiness when its EAR is below the threshold. *)
Definition below (cfg : Config) (landmarks : Shape) : bool :=
  (face_ear landmarks <? EAR_THRESHOLD cfg)%float.

(** The values of [is_drowsy] after each of the frames. *)
Fixpoint drowsy_trace (cfg : Config) (frames : list Frame) (d : Detector)
    : list bool :=
  match frames with
  | [] => []
  | fr :: rest =>
      let d1 := fst (process_frame cfg fr d) in
      is_drowsy d1 :: drowsy_trace cfg rest d1
  end.

(** How often a sequence of booleans goes from [false] to [true], starting
    from the value [b]. *)
Fixpoint rising_edges (b : bool) (l : list bool) : nat :=
  match l with
  | [] => 0
  | b' :: rest => ((if negb b && b' then 1 else 0) + rising_edges b' rest)%nat
  end.

(** States a session can be in: reached from [init] by calls of
    [process_frame]. *)
Definition reachable (cfg : Config) (d : Detector) : Prop :=
  exists t0 frames, fst (process_frames cfg frames (init t0)) = d.

(** The EAR values of a list of faces are all below the threshold. *)
Definition all_below (cfg : Config) (ears : list float) : Prop :=
  Forall (fun ear => (ear <? EAR_THRESHOLD cfg)%float = true) ears.

(** The invariant of the state machine. *)
Definition drowsy_inv (cfg : Config) (d : Detector) : Prop :=
  (is_drowsy d = true ->
   DROWSINESS_FRAMES_THRESHOLD cfg <= eye_closed_frames d) /\
  0 <= eye_closed_frames d.


(** The part of the detector the state machine owns. *)
Definition detection_state (d : Detector) : Z * bool :=
  (eye_closed_frames d, is_drowsy d).

(** A frame with at least two faces drives the state as its last face
    alone would. *)
Definition last_face_drives (cfg : Config) (fr : Frame) (d : Detector) : Prop :=
  (2 <= length (faces fr))%nat ->
  detection_state (fst (process_frame cfg fr d)) =
  detection_state
    (fst (process_frame cfg
            (mkFrame [last (faces fr) (fun _ => (0, 0))] (clock fr)) d)).

(** Three faces with closed eyes in one frame. *)
Definition crowded_frame : Frame :=
  mkFrame [face_020; face_020; face_020] 1700000000%float.

(** ** Binary64 values in specification form *)

(** [x] is finite with sign [s], and its magnitude, the number of binary
    digits of the mantissa plus the exponent, lies between [lo] and [hi]:
    [2^(lo-1) <= |x| < 2^hi]. *)
Definition finite_in (s : bool) (lo hi : Z) (x : spec_float) : Prop :=
  exists m e, x = S754_finite s m e /\ lo <= Zpos (digits2_pos m) + e <= hi.

(** [x] is [+0] or positive and finite with magnitude in the given range. *)
Definition nonneg_in (lo hi : Z) (x : spec_float) : Prop :=
  x = S754_zero false \/ finite_in false lo hi x.

(** [x] is a NaN or carries the sign [s]. *)
Definition sign_or_nan (s : bool) (x : spec_float) : Prop :=
  match x with
  | S754_nan => True
  | S754_zero s' | S754_infinity s' | S754_finite s' _ _ => s' = s
  end.

(** [x] is [+infinity] or a NaN. *)
Definition inf_or_nan (x : spec_float) : Prop :=
  x = S754_infinity false \/ x = S754_nan.

(** Pixel coordinates: below [2^25] in absolute value.  There numpy's
    integer subtraction cannot wrap, whether the array is int32 or int64,
    and the differences stay below [2^26], so that their squares and the
    sum of the squares are exact in binary64 however the dot product is
    evaluated. *)
Definition in_range (p : point) : Prop :=
  Z.abs (fst p) < 2 ^ 25 /\ Z.abs (snd p) < 2 ^ 25.

Definition eye_in_range (eye : Eye) : Prop :=
  in_range (lm0 eye) /\ in_range (lm1 eye) /\ in_range (lm2 eye) /\
  in_range (lm3 eye) /\ in_range (lm4 eye) /\ in_range (lm5 eye).

(** The binary64 of an integer below [2^53] in absolute value, in
    specification form: the integer itself, written with a mantissa of 53
    binary digits. *)
Definition integer_float (z : Z) : spec_float :=
  match z with
  | Z0 => S754_zero false
  | _ => S754_finite (z <? 0)
           (Z.to_pos (Z.abs z * 2 ^ (53 - Zdigits2 z))) (Zdigits2 z - 53)
  end.

(** The Euclidean distance of the specification, in binary64: the square
    root, rounded to nearest as IEEE-754 defines it, of the sum of the
    squares of the coordinate differences, that sum being taken exactly, on
    the integers. *)
Definition euclidean_distance (u v : point) : float :=
  sqrt (float_of_int ((fst u - fst v) * (fst u - fst v)
                      + (snd u - snd v) * (snd u - snd v))).

(** ** Frames that reach the detector through the video feed *)

(** A session of the web interface with thresholds 0.25 and 3: detection
    is started, and the detection loop and a client of [/api/video-feed]
    then take frames from the camera in turn, two each; every frame shows
    one face with closed eyes (EAR 0.20).  No key is pressed ([waitKey]
    returns -1). *)
Definition feed_session : list operation :=
  [StartDetection true;
   LoopIteration (mkIteration true (mkFrame [face_020] 1700000001%float) (-1));
   VideoFeed true (mkFrame [face_020] 1700000002%float);
   LoopIteration (mkIteration true (mkFrame [face_020] 1700000003%float) (-1));
   VideoFeed true (mkFrame [face_020] 1700000004%float)].

Definition is_yield (e : loop_effect) : bool :=
  match e with YieldFrame => true | _ => false end.

(** * Further code of the repository *)

(** ** web_interface.py: the start and stop routes *)

(** [/api/start]: a worker running [start_detection] is started only when
    [running] is false, and the answer says whether one was started.
    [camera_ok] is how [initialize_camera] turns out in that worker. *)
Definition api_start (cfg : Config) (camera_ok : bool) (s : Session)
    : Session * bool :=
  if negb (running (det s)) then
    (fst (session_step cfg (StartDetection camera_ok) s), true)
  else (s, false).

(** [/api/stop]: [det.stop_detection()]. *)
Definition api_stop (cfg : Config) (s : Session) : Session :=
  fst (session_step cfg StopDetection s).

(** ** drowsiness_detector.py: [initialize_camera] *)

(** The loop [for i in range(1, 4)]: [cap] is the index of the capture
    object held so far; the result tells whether the loop was left by
    [break]. *)
Fixpoint try_cameras (opened : Z -> bool) (indices : list Z) (cap : Z)
    : Z * bool :=
  match indices with
  | [] => (cap, false)
  | i :: rest => if opened i then (i, true) else try_cameras opened rest i
  end.

(** [opened i] is what [cv2.VideoCapture(i).isOpened()] gives.  The result
    is the index of the capture object left in [self.cap] and the value
    returned; the exception of the [else] branch of the loop is caught and
    turned into [False]. *)
Definition initialize_camera (opened : Z -> bool) : Z * bool :=
  if opened 0 then (0, true)
  else
    let '(cap, found) := try_cameras opened [1; 2; 3] 0 in
    if found then (cap, true) else (cap, false).

(** A frame with exactly one face. *)
Definition single_face (fr : Frame) : Prop := exists f, faces fr = [f].

(** Every face of the frame is below the threshold. *)
Definition frame_below (cfg : Config) (fr : Frame) : Prop :=
  forallb (below cfg) (faces fr) = true.

(** The loop and the video feed both take frames with one face below the
    threshold: an operation of that kind. *)
Definition low_frame_op (cfg : Config) (op : operation) : Prop :=
  match op with
  | LoopIteration it =>
      ret it = true /\ Z.land (key it) 255 <> ord_q /\
      exists f, faces (frame it) = [f] /\ below cfg f = true
  | VideoFeed read_ok fr =>
      read_ok = true /\ exists f, faces fr = [f] /\ below cfg f = true
  | _ => False
  end.

Definition is_loop_iteration (op : operation) : bool :=
  match op with LoopIteration _ => true | _ => false end.

(** ** utils.py: downloading the landmark model *)

Definition bytes : Type := list Byte.byte.

(** What the server sends: the value of [int(headers.get('Content-Length',
    0))] and the results of the successive [response.read(chunk_size)];
    past the end of the list the stream is over and [read] returns the
    empty chunk. *)
Record Response := mkResponse {
  content_length : result Z;
  reads : list (result bytes)
}.

(** How the calls of [download_file] that leave the process turn out. *)
Record DownloadWorld := mkDownloadWorld {
  dl_makedirs : result unit;      (* os.makedirs(dirname, exist_ok=True) *)
  dl_urlopen : result Response;   (* urllib.request.urlopen(url) *)
  dl_open : result unit           (* open(destination, 'wb') *)
}.

(** The loop [while True] of [download_file]: what has been written to the
    file and counted in [downloaded] so far, and how the loop ends. *)
Fixpoint read_chunks (reads : list (result bytes)) (written : bytes)
    (downloaded : Z) : result unit * bytes * Z :=
  match reads with
  | [] => (Return tt, written, downloaded)
  | Raise e :: _ => (Raise e, written, downloaded)
  | Return chunk :: rest =>
      match chunk with
      | [] => (Return tt, written, downloaded)
      | _ :: _ =>
          read_chunks rest (written ++ chunk)
                      (downloaded + Z.of_nat (length chunk))
      end
  end.

(** [download_file(url, destination)]: the value returned and the file at
    [destination] afterwards ([None]: no such file), from the file before.
    Opening with ['wb'] creates or empties the file.  Printing is not
    modelled. *)
Definition download_file (w : DownloadWorld) (file : option bytes)
    : bool * option bytes :=
  match dl_makedirs w with
  | Raise _ => (false, file)
  | Return _ =>
  match dl_urlopen w with
  | Raise _ => (false, file)
  | Return response =>
  match content_length response with
  | Raise _ => (false, file)
  | Return total_size =>
  match dl_open w with
  | Raise _ => (false, file)
  | Return _ =>
      let '(r, written, downloaded) := read_chunks (reads response) [] 0 in
      match r with
      | Return _ => (true, Some written)
      | Raise _ => (false, Some written)
      end
  end end end end.

(** [download_dlib_model()]: [file] is the file at
    [config.DLIB_PREDICTOR_PATH]; [ensure_dir] is how
    [ensure_directory(models_dir)], which is outside the [try], turns out.
    [os.path.exists], [os.path.getsize] and [os.remove] of the file just
    written do not fail. *)
Definition download_dlib_model (ensure_dir : result unit) (w : DownloadWorld)
    (file : option bytes) : result bool * option bytes :=
  match file with
  | Some _ => (Return true, file)
  | None =>
      match ensure_dir with
      | Raise e => (Raise e, file)
      | Return _ =>
          let '(ok, file1) := download_file w file in
          if ok then
            match file1 with
            | Some content =>
                if 1000000 <? Z.of_nat (length content)
                then (Return true, file1)
                else (Return false, None)
            | None => (Return false, None)
            end
          else (Return false, file1)
      end
  end.

(** A world in which every call before the reads succeeds. *)
Definition reaches_reads (w : DownloadWorld) (response : Response) : Prop :=
  dl_makedirs w = Return tt /\
  dl_urlopen w = Return response /\
  (exists n, content_length response = Return n) /\
  dl_open w = Return tt.

Definition nonempty (chunk : bytes) : Prop := chunk <> [].

(** Two chunks of a download, for the examples. *)
Definition chunk_a : bytes := [Byte.x64; Byte.x6c; Byte.x69; Byte.x62].
Definition chunk_b : bytes := [Byte.x2e; Byte.x64; Byte.x61; Byte.x74].

Definition good_world (reads : list (result bytes)) : DownloadWorld :=
  mkDownloadWorld (Return tt)
                  (Return (mkResponse (Return 8) reads))
                  (Return tt).

(** ** utils.py: [cleanup_old_files] *)

From Stdlib Require Import Permutation Sorted.

(** A file matched by [glob.glob], with what [os.path.getmtime] gives for
    it, counted in ticks fine enough to tell all its values apart: the code
    uses the order of the times only. *)
Record DirEntry := mkDirEntry {
  path : string;
  mtime : Z
}.

(** The slice [l[:-n]] of Python: [-0] is [0], so [l[:-0]] is [l[:0]]; a
    stop before the start of the list is the start. *)
Definition slice_to_minus {A} (l : list A) (n : Z) : list A :=
  if n =? 0 then []
  else if 0 <? n then firstn (Z.to_nat (Z.of_nat (length l) - n)) l
  else firstn (Z.to_nat (- n)) l.

(** [files.sort(key=os.path.getmtime)]: Python's sort is stable, and a
    stable sort has one result; it is computed here by insertion. *)
Fixpoint insert_by_mtime (x : DirEntry) (l : list DirEntry) : list DirEntry :=
  match l with
  | [] => [x]
  | y :: rest =>
      if mtime x <=? mtime y then x :: l else y :: insert_by_mtime x rest
  end.

Definition sort_by_mtime (l : list DirEntry) : list DirEntry :=
  fold_right insert_by_mtime [] l.

(** [cleanup_old_files(directory, max_files, pattern)]: the paths removed,
    in the order of removal.  [files] is the result of [glob.glob];
    [removable p] tells whether [os.remove(p)] succeeds (a failure is caught
    for that file and the loop goes on). *)
Definition cleanup_old_files (directory_exists : bool) (files : list DirEntry)
    (removable : string -> bool) (max_files : Z) : list string :=
  if negb directory_exists then []
  else if Z.of_nat (length files) <=? max_files then []
  else
    let sorted := sort_by_mtime files in
    let files_to_remove := slice_to_minus sorted max_files in
    map path (filter (fun f => removable (path f)) files_to_remove).

Definition older_or_same (a b : DirEntry) : Prop := mtime a <= mtime b.

(** Snapshots of a directory, for the examples. *)
Definition three_snapshots : list DirEntry :=
  [mkDirEntry "snapshots/drowsy_3.jpg" 30;
   mkDirEntry "snapshots/drowsy_1.jpg" 10;
   mkDirEntry "snapshots/drowsy_2.jpg" 20].

(** ** config.py: the email settings and the checks *)

Record EmailConfig := mkEmailConfig {
  SMTP_SERVER : string;
  SMTP_PORT : Z;
  SENDER_EMAIL : string;
  SENDER_PASSWORD : string;
  RECEIVER_EMAIL : string
}.

Definition issue_ear : string := "EAR_THRESHOLD must be between 0 and 1".
Definition issue_frames : string :=
  "DROWSINESS_FRAMES_THRESHOLD must be at least 1".
Definition issue_email : string :=
  "Email configuration incomplete - email alerts will be disabled".

(** [validate_config()]: the list of issues, in the order of the tests. *)
Definition validate_config (cfg : Config) (mail : EmailConfig) : list string :=
  (if (EAR_THRESHOLD cfg <=? 0)%float || (1 <=? EAR_THRESHOLD cfg)%float
   then [issue_ear] else []) ++
  (if DROWSINESS_FRAMES_THRESHOLD cfg <? 1 then [issue_frames] else []) ++
  (if negb (truthy (SENDER_EMAIL mail)) || negb (truthy (RECEIVER_EMAIL mail))
   then [issue_email] else []).

(** [get_email_config_status()]. *)
Definition get_email_config_status (mail : EmailConfig) : bool :=
  truthy (SENDER_EMAIL mail) && truthy (SENDER_PASSWORD mail) &&
  truthy (RECEIVER_EMAIL mail).

(** [EmailNotifier.__init__]: the settings are copied from [config]. *)
Definition EmailNotifier_init (mail : EmailConfig) : EmailNotifier :=
  {| smtp_server := SMTP_SERVER mail;
     smtp_port := SMTP_PORT mail;
     sender_email := SENDER_EMAIL mail;
     sender_password := SENDER_PASSWORD mail;
     receiver_email := RECEIVER_EMAIL mail |}.

(** ** email_notifier.py: the two tests *)

(** The text of an exception, as [f"{e}"] gives it. *)
Definition exn_text (e : exn) : string :=
  match e with Exception description => description end.

(** [test_email_connection()]. *)
Definition test_email_connection (self : EmailNotifier) (w : MailWorld)
    : result (bool * string) :=
  try_except
    (if negb (forallb truthy
                [sender_email self; sender_password self; receiver_email self])
     then Return (false, "Email configuration incomplete"%string)
     else
       _ <- with_smtp w (_ <- smtp_starttls w ;; smtp_login w) ;;
       Return (true, "Email connection successful"%string))
    (fun e =>
       Return (false, ("Email connection failed: " ++ exn_text e)%string)).






(** A mail server that accepts everything. *)
Definition accepting_world : MailWorld :=
  mkMailWorld (Return tt) (Return tt) (Return tt) (Return tt) (Return tt)
              (Return tt).

(** Settings with the password missing. *)
Definition no_password : EmailConfig :=
  mkEmailConfig "smtp.gmail.com" 587 "driver@example.org" ""
                "fleet@example.org".

(** ** audio_alert.py: [play_alert] *)

(** The fields of an [AudioAlert] that the code reads. *)
Record AudioAlert := mkAudioAlert {
  initialized : bool;
  playing : bool
}.

(** A [pygame.mixer.Sound]: loaded from a file or generated. *)
Inductive Sound : Type :=
| FileSound (sound_path : string)
| BeepSound.

(** One pass of the loop over [range(config.AUDIO_ALERT_REPEATS)]:
    [pygame.mixer.get_init()] is false; [sound.play()] raises; the sound
    plays and waiting for its end raises; the sound plays to its end. *)
Inductive play_outcome : Type :=
| MixerGone
| PlayRaises (e : exn)
| WaitRaises (e : exn)
| Played.

(** How the calls of [play_alert] that leave the process turn out. *)
Record AudioWorld := mkAudioWorld {
  file_exists : string -> bool;  (* os.path.exists(path) *)
  sound_loads : string -> bool;  (* pygame.mixer.Sound(path) does not raise *)
  beep_generates : bool;         (* the body of generate_beep_sound does not raise *)
  play_at : nat -> play_outcome  (* the passes of the repeat loop, from 0 *)
}.

Inductive audio_effect : Type :=
| PlaySound (s : Sound)   (* sound.play() has started the sound *)
| SystemBeep              (* self.system_beep(), which raises nothing *).

(** [load_sound(sound_path)]; an exception of [pygame.mixer.Sound] is
    caught and gives [None]. *)
Definition load_sound (self : AudioAlert) (w : AudioWorld) (sound_path : string)
    : option Sound :=
  if negb (initialized self) then None
  else if file_exists w sound_path then
    if sound_loads w sound_path then Some (FileSound sound_path) else None
  else None.

(** [generate_beep_sound()]. *)
Definition generate_beep_sound (self : AudioAlert) (w : AudioWorld)
    : option Sound :=
  if negb (initialized self) then None
  else if beep_generates w then Some BeepSound else None.

(** The loop over [config.AUDIO_ALERT_PATHS], left at the first sound that
    loads. *)
Fixpoint first_loading (self : AudioAlert) (w : AudioWorld)
    (paths : list string) : option Sound :=
  match paths with
  | [] => None
  | sound_path :: rest =>
      if truthy sound_path && file_exists w sound_path then
        match load_sound self w sound_path with
        | Some sound => Some sound
        | None => first_loading self w rest
        end
      else first_loading self w rest
  end.

(** The repeat loop, [n] passes left, at pass [i]. *)
Fixpoint play_repeats (w : AudioWorld) (sound : Sound) (n i : nat)
    : result unit * list audio_effect :=
  match n with
  | O => (Return tt, [])
  | S n' =>
      match play_at w i with
      | MixerGone => (Return tt, [])
      | PlayRaises e => (Raise e, [])
      | WaitRaises e => (Raise e, [PlaySound sound])
      | Played =>
          let '(r, out) := play_repeats w sound n' (S i) in
          (r, PlaySound sound :: out)
      end
  end.

Definition default_sound_path : string := "assets/default_beep.wav".

(** [play_alert()]: the object afterwards and what was heard.  The wait
    for the end of a sound is taken to end. *)
Definition play_alert (paths : list string) (repeats : Z) (self : AudioAlert)
    (w : AudioWorld) : AudioAlert * list audio_effect :=
  if playing self then (self, [])
  else
    let sound := first_loading self w paths in
    let sound :=
      match sound with
      | Some _ => sound
      | None =>
          if file_exists w default_sound_path
          then load_sound self w default_sound_path else None
      end in
    let sound :=
      match sound with
      | Some _ => sound
      | None => generate_beep_sound self w
      end in
    let out :=
      match sound with
      | Some s =>
          if initialized self then
            let '(r, out) := play_repeats w s (Z.to_nat repeats) 0 in
            match r with
            | Return _ => out
            | Raise _ => out ++ [SystemBeep]
            end
          else [SystemBeep]
      | None => [SystemBeep]
      end in
    (mkAudioAlert (initialized self) false, out).

Definition is_play_sound (e : audio_effect) : bool :=
  match e with PlaySound _ => true | SystemBeep => false end.

(** The path can serve as the alert sound. *)
Definition usable (w : AudioWorld) (sound_path : string) : bool :=
  truthy sound_path && file_exists w sound_path && sound_loads w sound_path.

(** A machine on which only the second configured sound file is there. *)
Definition second_file_world : AudioWorld :=
  mkAudioWorld (fun p => String.eqb p "assets/alert.wav")
               (fun _ => true) true (fun _ => Played).

(** ** web_interface.py: [update_config] *)

(** A value of the JSON body as Python sees it after [request.get_json()]. *)
Inductive Json : Type :=
| JInt (z : Z)
| JFloat (f : float)
| JString (s : string)
| JBool (b : bool)
| JNull
| JArray
| JObject.

(** The body, a JSON object: its members in the order of the text; of two
    members with one key the later one is the value of the [dict]. *)
Definition JsonObject : Type := list (string * Json).

Fixpoint dict_get (key : string) (data : JsonObject) : option Json :=
  match data with
  | [] => None
  | (k, v) :: rest =>
      match dict_get key rest with
      | Some later => Some later
      | None => if String.eqb k key then Some v else None
      end
  end.

(** [int(x)] for a Python [float]: towards zero; NaN and the infinities
    raise. *)
Definition py_int_of_float (f : float) : result Z :=
  match Prim2SF f with
  | S754_nan => Raise (Exception "ValueError")
  | S754_infinity _ => Raise (Exception "OverflowError")
  | S754_zero _ => Return 0
  | S754_finite s m e =>
      let a := match e with
               | Zneg _ => Z.shiftr (Zpos m) (- e)
               | _ => Z.shiftl (Zpos m) e
               end in
      Return (if s then - a else a)
  end.

Section UpdateConfig.

(** [float(s)] and [int(s)] for a [str]. *)
Variable parse_float : string -> result float.
Variable parse_int : string -> result Z.

Definition py_float (v : Json) : result float :=
  match v with
  | JInt z => py_float_of_int z
  | JFloat f => Return f
  | JString s => parse_float s
  | JBool b => Return (if b then 1%float else 0%float)
  | JNull | JArray | JObject => Raise (Exception "TypeError")
  end.

Definition py_int (v : Json) : result Z :=
  match v with
  | JInt z => Return z
  | JFloat f => py_int_of_float f
  | JString s => parse_int s
  | JBool b => Return (if b then 1 else 0)
  | JNull | JArray | JObject => Raise (Exception "TypeError")
  end.

(** The four assignments of [update_config] to the attributes of the
    module [config], and the [success] of the answer: an exception ends
    the sequence and keeps what was assigned before it. *)
Definition update_config (data : JsonObject) (cfg : Config) : Config * bool :=
  let step1 :=
    match dict_get "ear_threshold" data with
    | None => Return cfg
    | Some v =>
        x <- py_float v ;;
        Return (mkConfig x (DROWSINESS_FRAMES_THRESHOLD cfg)
                         (AUDIO_ALERT_COOLDOWN cfg) (EMAIL_ALERT_COOLDOWN cfg))
    end in
  match step1 with
  | Raise _ => (cfg, false)
  | Return cfg1 =>
  let step2 :=
    match dict_get "frames_threshold" data with
    | None => Return cfg1
    | Some v =>
        n <- py_int v ;;
        Return (mkConfig (EAR_THRESHOLD cfg1) n
                         (AUDIO_ALERT_COOLDOWN cfg1) (EMAIL_ALERT_COOLDOWN cfg1))
    end in
  match step2 with
  | Raise _ => (cfg1, false)
  | Return cfg2 =>
  let step3 :=
    match dict_get "audio_alert_cooldown" data with
    | None => Return cfg2
    | Some v =>
        n <- py_int v ;;
        Return (mkConfig (EAR_THRESHOLD cfg2) (DROWSINESS_FRAMES_THRESHOLD cfg2)
                         n (EMAIL_ALERT_COOLDOWN cfg2))
    end in
  match step3 with
  | Raise _ => (cfg2, false)
  | Return cfg3 =>
  let step4 :=
    match dict_get "email_alert_cooldown" data with
    | None => Return cfg3
    | Some v =>
        n <- py_int v ;;
        Return (mkConfig (EAR_THRESHOLD cfg3) (DROWSINESS_FRAMES_THRESHOLD cfg3)
                         (AUDIO_ALERT_COOLDOWN cfg3) n)
    end in
  match step4 with
  | Raise _ => (cfg3, false)
  | Return cfg4 => (cfg4, true)
  end end end end.

End UpdateConfig.

(** Parsers for the examples: no string is a number. *)
Definition no_float (_ : string) : result float := Raise (Exception "ValueError").
Definition no_int (_ : string) : result Z := Raise (Exception "ValueError").

(** ** utils.py: [format_duration] *)

From Stdlib Require Import DecimalString.

(** [f"{n}"] for a Python [int]. *)
Definition py_str_int (n : Z) : string := NilZero.string_of_int (Z.to_int n).

(** [format_duration] for a whole number of seconds (a Python [int]);
    [//] and [%] are the floor division and its remainder, and [int] of an
    [int] is the number itself. *)
Definition format_duration (seconds : Z) : string :=
  if seconds <? 60 then
    String.append (py_str_int seconds) "s"
  else if seconds <? 3600 then
    let minutes := seconds / 60 in
    let secs := seconds mod 60 in
    String.append (py_str_int minutes)
      (String.append "m " (String.append (py_str_int secs) "s"))
  else
    let hours := seconds / 3600 in
    let minutes := (seconds mod 3600) / 60 in
    String.append (py_str_int hours)
      (String.append "h " (String.append (py_str_int minutes) "m")).
(** * Properties *)

(** ** Counting effects *)

Lemma count_if_app {A} (p : A -> bool) (l1 l2 : list A) :
  count_if p (l1 ++ l2) = count_if p l1 + count_if p l2.
Proof.
  unfold count_if. rewrite filter_app, length_app. lia.
Qed.

Lemma count_if_nonneg {A} (p : A -> bool) (l : list A) : 0 <= count_if p l.
Proof. unfold count_if. lia. Qed.

Lemma count_if_nil {A} (p : A -> bool) : count_if p [] = 0.
Proof. reflexivity. Qed.

(** ** The dispatcher touches nothing but the two time stamps *)

Lemma handle_frame_state cfg now d :
  let d' := fst (handle_drowsiness_detection cfg now d) in
  is_drowsy d' = is_drowsy d /\
  eye_closed_frames d' = eye_closed_frames d /\
  drowsy_detections d' = drowsy_detections d /\
  total_frames d' = total_frames d /\
  running d' = running d /\
  session_start_time d' = session_start_time d.
Proof.
  unfold handle_drowsiness_detection.
  destruct (audio_due cfg now d);
    destruct (email_due cfg now _); cbn; repeat split.
Qed.

Lemma handle_no_onset cfg now d :
  onsets (snd (handle_drowsiness_detection cfg now d)) = 0.
Proof.
  unfold handle_drowsiness_detection.
  destruct (audio_due cfg now d);
    destruct (email_due cfg now _); reflexivity.
Qed.

(** ** One face *)

(** What [check_drowsiness] does to the counter, the flag and the detection
    count, by cases on the EAR. *)
Lemma check_drowsiness_low cfg now ear d :
  (ear <? EAR_THRESHOLD cfg)%float = true ->
  let '(d', out) := check_drowsiness cfg now ear d in
  let fire :=
    negb (is_drowsy d) &&
    (DROWSINESS_FRAMES_THRESHOLD cfg <=? eye_closed_frames d + 1) in
  eye_closed_frames d' = eye_closed_frames d + 1 /\
  is_drowsy d' = is_drowsy d || fire /\
  onsets out = (if fire then 1 else 0) /\
  drowsy_detections d' = drowsy_detections d + onsets out /\
  total_frames d' = total_frames d.
Proof.
  intros Hlow. unfold check_drowsiness. rewrite Hlow. cbn [eye_closed_frames set_eye_closed_frames].
  destruct (DROWSINESS_FRAMES_THRESHOLD cfg <=? eye_closed_frames d + 1).
  - cbn [is_drowsy set_eye_closed_frames].
    destruct (is_drowsy d) eqn:Hd; cbn [negb andb orb].
    + cbn. rewrite Hd. repeat split; lia.
    + match goal with
      | |- context [handle_drowsiness_detection cfg now ?x] =>
          pose proof (handle_frame_state cfg now x) as Hs;
          pose proof (handle_no_onset cfg now x) as Ho;
          destruct (handle_drowsiness_detection cfg now x) as [d4 out]
      end.
      cbn in Hs, Ho. destruct Hs as (H1 & H2 & H3 & H4 & _).
      assert (Hc : onsets (DrowsyOnset :: out) = 1).
      { change (DrowsyOnset :: out) with ([DrowsyOnset] ++ out).
        unfold onsets in *. rewrite count_if_app, Ho. reflexivity. }
      rewrite Hc. repeat split; try assumption; lia.
  - rewrite andb_false_r, orb_false_r. cbn. repeat split; lia.
Qed.

Lemma check_drowsiness_high cfg now ear d :
  (ear <? EAR_THRESHOLD cfg)%float = false ->
  check_drowsiness cfg now ear d =
    (set_is_drowsy false (set_eye_closed_frames 0 d), []).
Proof.
  intros Hhigh. unfold check_drowsiness. now rewrite Hhigh.
Qed.

(** ** Several faces, several frames *)

Lemma check_faces_app cfg now ears1 ears2 d :
  check_faces cfg now (ears1 ++ ears2) d =
    let '(d1, out1) := check_faces cfg now ears1 d in
    let '(d2, out2) := check_faces cfg now ears2 d1 in
    (d2, out1 ++ out2).
Proof.
  revert d. induction ears1 as [|e ears1 IH]; intros d; cbn.
  - now destruct (check_faces cfg now ears2 d).
  - destruct (check_drowsiness cfg now e d) as [d1 out1].
    rewrite IH.
    destruct (check_faces cfg now ears1 d1) as [d2 out2].
    destruct (check_faces cfg now ears2 d2) as [d3 out3].
    now rewrite app_assoc.
Qed.

Lemma process_frames_app cfg frames1 frames2 d :
  process_frames cfg (frames1 ++ frames2) d =
    let '(d1, outs1) := process_frames cfg frames1 d in
    let '(d2, outs2) := process_frames cfg frames2 d1 in
    (d2, outs1 ++ outs2).
Proof.
  revert d. induction frames1 as [|fr frames1 IH]; intros d; cbn.
  - now destruct (process_frames cfg frames2 d).
  - destruct (process_frame cfg fr d) as [d1 out1].
    rewrite IH.
    destruct (process_frames cfg frames1 d1) as [d2 outs2].
    now destruct (process_frames cfg frames2 d2).
Qed.

(** The detection count follows the onsets, for any EAR. *)
Lemma check_drowsiness_detections cfg now ear d :
  let '(d', out) := check_drowsiness cfg now ear d in
  drowsy_detections d' = drowsy_detections d + onsets out /\
  (onsets out = 0 \/ onsets out = 1) /\
  (onsets out = 1 <-> is_drowsy d = false /\ is_drowsy d' = true) /\
  total_frames d' = total_frames d.
Proof.
  destruct (ear <? EAR_THRESHOLD cfg)%float eqn:Hear.
  - pose proof (check_drowsiness_low cfg now ear d Hear) as H.
    destruct (check_drowsiness cfg now ear d) as [d' out].
    destruct H as (_ & Hd & Ho & Hn & Hf).
    rewrite Hd, Ho.
    destruct (is_drowsy d);
      destruct (DROWSINESS_FRAMES_THRESHOLD cfg <=? eye_closed_frames d + 1);
      cbn; repeat split; try tauto; try lia; try (rewrite Hn, Ho; cbn; lia);
      intros; try discriminate; try lia; intuition discriminate.
  - rewrite (check_drowsiness_high cfg now ear d Hear). cbn.
    repeat split; try lia; try (now left); intuition discriminate.
Qed.

Lemma check_faces_detections cfg now ears d :
  let '(d', out) := check_faces cfg now ears d in
  drowsy_detections d' = drowsy_detections d + onsets out /\
  total_frames d' = total_frames d.
Proof.
  revert d. induction ears as [|e ears IH]; intros d; cbn.
  - split; [lia | reflexivity].
  - pose proof (check_drowsiness_detections cfg now e d) as H1.
    destruct (check_drowsiness cfg now e d) as [d1 out1].
    specialize (IH d1).
    destruct (check_faces cfg now ears d1) as [d2 out2].
    unfold onsets in *. rewrite count_if_app.
    destruct H1 as (H1 & _ & _ & H1'), IH as (IH & IH'). split; lia.
Qed.

Lemma process_frames_detections cfg frames d :
  let '(d', outs) := process_frames cfg frames d in
  drowsy_detections d' = drowsy_detections d + onsets (concat outs) /\
  total_frames d' = total_frames d.
Proof.
  revert d. induction frames as [|fr frames IH]; intros d; cbn.
  - split; [lia | reflexivity].
  - unfold process_frame.
    pose proof (check_faces_detections cfg (clock fr) (map face_ear (faces fr)) d) as H1.
    destruct (check_faces cfg (clock fr) (map face_ear (faces fr)) d) as [d1 out1].
    specialize (IH d1).
    destruct (process_frames cfg frames d1) as [d2 outs2].
    cbn [concat]. unfold onsets in *. rewrite count_if_app.
    destruct H1 as (H1 & H1'), IH as (IH & IH'). split; lia.
Qed.

(** The onset markers among the effects of the loop. *)
Lemma count_emitted_map p out :
  count_if (is_emitted p) (map Emitted out) = count_if p out.
Proof.
  unfold count_if. induction out as [|e out IH]; cbn; [reflexivity|].
  destruct (p e); cbn; lia.
Qed.

Lemma count_show_map out : count_if is_show (map Emitted out) = 0.
Proof.
  unfold count_if. induction out as [|e out IH]; cbn; [reflexivity|exact IH].
Qed.

Lemma loop_iteration_counts cfg it s :
  let '(s', out) := loop_iteration cfg it s in
  drowsy_detections (det s') =
    drowsy_detections (det s) + count_if (is_emitted is_onset) out /\
  total_frames (det s') =
    total_frames (det s) + count_if is_show out.
Proof.
  unfold loop_iteration.
  destruct (looping s); cbn [negb]; [|cbn; lia].
  destruct (running (det s)); cbn [negb]; [|cbn; lia].
  destruct (ret it); cbn [negb]; [|cbn; lia].
  unfold process_frame.
  pose proof (check_faces_detections cfg (clock (frame it))
                (map face_ear (faces (frame it)))
                (set_total_frames (total_frames (det s) + 1) (det s))) as H.
  destruct (check_faces _ _ _ _) as [d2 out].
  cbn in H. destruct H as (Hd & Hf).
  unfold onsets in Hd.
  destruct (Z.land (key it) 255 =? ord_q);
    [|destruct (Z.land (key it) 255 =? ord_s)];
    cbn [det]; rewrite !count_if_app, count_emitted_map, count_show_map;
    cbn; lia.
Qed.

Lemma generate_frame_counts cfg read_ok fr s :
  let '(s', out) := generate_frame cfg read_ok fr s in
  drowsy_detections (det s') =
    drowsy_detections (det s) + count_if (is_emitted is_onset) out /\
  total_frames (det s') =
    total_frames (det s) + count_if is_show out.
Proof.
  unfold generate_frame.
  destruct (cap_open s && read_ok); [|cbn; lia].
  unfold process_frame.
  pose proof (check_faces_detections cfg (clock fr) (map face_ear (faces fr))
                (det s)) as H.
  destruct (check_faces _ _ _ _) as [d1 out]. destruct H as (Hd & Hf).
  unfold onsets in Hd. cbn [det].
  rewrite !count_if_app, count_emitted_map, count_show_map. cbn. lia.
Qed.

Lemma session_run_counts cfg ops s :
  let '(s', out) := session_run cfg ops s in
  drowsy_detections (det s') =
    drowsy_detections (det s) + count_if (is_emitted is_onset) out /\
  total_frames (det s') = total_frames (det s) + count_if is_show out.
Proof.
  revert s. induction ops as [|op ops IH]; intros s; cbn [session_run].
  - cbn. lia.
  - assert (H1 : let '(s1, out1) := session_step cfg op s in
                 drowsy_detections (det s1) =
                   drowsy_detections (det s)
                   + count_if (is_emitted is_onset) out1 /\
                 total_frames (det s1) =
                   total_frames (det s) + count_if is_show out1).
    { destruct op as [ok|it| |now|ok fr]; cbn [session_step].
      - destruct (looping s), ok; cbn; lia.
      - apply loop_iteration_counts.
      - cbn; lia.
      - cbn; lia.
      - apply generate_frame_counts. }
    destruct (session_step cfg op s) as [s1 out1].
    specialize (IH s1).
    destruct (session_run cfg ops s1) as [s2 out2].
    rewrite !count_if_app. lia.
Qed.

(** ** No-face frames *)

(** C2: a frame in which no face is detected leaves the detector as it was
    (in particular [eye_closed_frames] and [is_drowsy]) and has no effect,
    so it neither triggers nor clears drowsiness; put anywhere into a
    sequence of frames, it changes neither the state reached nor the effects
    of the other frames. *)
Theorem no_face_frame_is_neutral cfg :
  (forall now d, process_frame cfg (mkFrame [] now) d = (d, [])) /\
  (forall frames1 frames2 now d,
     process_frames cfg (frames1 ++ mkFrame [] now :: frames2) d =
       let '(d1, outs1) := process_frames cfg frames1 d in
       let '(d2, outs2) := process_frames cfg frames2 d1 in
       (d2, outs1 ++ [] :: outs2)) /\
  (forall frames1 frames2 now d,
     fst (process_frames cfg (frames1 ++ mkFrame [] now :: frames2) d) =
       fst (process_frames cfg (frames1 ++ frames2) d) /\
     concat (snd (process_frames cfg (frames1 ++ mkFrame [] now :: frames2) d)) =
       concat (snd (process_frames cfg (frames1 ++ frames2) d))).
Proof.
  assert (Hins : forall frames1 frames2 now d,
     process_frames cfg (frames1 ++ mkFrame [] now :: frames2) d =
       let '(d1, outs1) := process_frames cfg frames1 d in
       let '(d2, outs2) := process_frames cfg frames2 d1 in
       (d2, outs1 ++ [] :: outs2)).
  { intros frames1 frames2 now d. rewrite process_frames_app.
    destruct (process_frames cfg frames1 d) as [d1 outs1].
    cbn. now destruct (process_frames cfg frames2 d1). }
  split; [reflexivity|]. split; [exact Hins|].
  intros frames1 frames2 now d. rewrite Hins, process_frames_app.
  destruct (process_frames cfg frames1 d) as [d1 outs1].
  destruct (process_frames cfg frames2 d1) as [d2 outs2].
  cbn [fst snd]. split; [reflexivity|].
  now rewrite !concat_app.
Qed.

(** ** The detection counter *)

(** C10: [drowsy_detections] goes up by exactly one in the step of
    [process_frame] that turns [is_drowsy] from false to true and enters the
    dispatcher, and in no other step; no other operation of a session writes
    it.  So over any run of a session it grows by the number of onsets
    emitted, it equals that number when the session starts from [init], and
    it never decreases. *)
Theorem drowsy_detections_counts_onsets cfg :
  (forall now ear d,
     let '(d', out) := check_drowsiness cfg now ear d in
     drowsy_detections d' = drowsy_detections d + onsets out /\
     (onsets out = 0 \/ onsets out = 1) /\
     (onsets out = 1 <-> is_drowsy d = false /\ is_drowsy d' = true)) /\
  (forall now d,
     drowsy_detections (fst (handle_drowsiness_detection cfg now d))
       = drowsy_detections d) /\
  (forall d, drowsy_detections (stop_detection d) = drowsy_detections d) /\
  (forall frames d,
     let '(d', outs) := process_frames cfg frames d in
     drowsy_detections d' = drowsy_detections d + onsets (concat outs) /\
     drowsy_detections d <= drowsy_detections d') /\
  (forall ops s,
     let '(s', out) := session_run cfg ops s in
     drowsy_detections (det s') =
       drowsy_detections (det s) + count_if (is_emitted is_onset) out /\
     drowsy_detections (det s) <= drowsy_detections (det s')) /\
  (forall ops t0,
     let '(s', out) := session_run cfg ops (new_session t0) in
     drowsy_detections (det s') = count_if (is_emitted is_onset) out).
Proof.
  repeat apply conj.
  - intros now ear d.
    pose proof (check_drowsiness_detections cfg now ear d) as H.
    destruct (check_drowsiness cfg now ear d) as [d' out]. tauto.
  - intros now d. apply (handle_frame_state cfg now d).
  - reflexivity.
  - intros frames d.
    pose proof (process_frames_detections cfg frames d) as H.
    destruct (process_frames cfg frames d) as [d' outs].
    pose proof (count_if_nonneg is_onset (concat outs)).
    unfold onsets in *. lia.
  - intros ops s.
    pose proof (session_run_counts cfg ops s) as H.
    destruct (session_run cfg ops s) as [s' out].
    pose proof (count_if_nonneg (is_emitted is_onset) out). lia.
  - intros ops t0.
    pose proof (session_run_counts cfg ops (new_session t0)) as H.
    destruct (session_run cfg ops (new_session t0)) as [s' out].
    cbn in H. lia.
Qed.

(** ** Runs of faces below the threshold *)

(** Faces below the threshold only count up; the flag is raised, once, when
    the counter is at the threshold. *)
Lemma check_faces_low cfg now ears d :
  all_below cfg ears ->
  let '(d', out) := check_faces cfg now ears d in
  let n := Z.of_nat (length ears) in
  let reached :=
    (0 <? n) && (DROWSINESS_FRAMES_THRESHOLD cfg <=? eye_closed_frames d + n) in
  eye_closed_frames d' = eye_closed_frames d + n /\
  is_drowsy d' = is_drowsy d || reached /\
  onsets out = (if negb (is_drowsy d) && reached then 1 else 0).
Proof.
  intros Hlow. revert d.
  induction Hlow as [|ear ears Hear _ IH]; intros d.
  - cbn. rewrite orb_false_r, andb_false_r. repeat split; lia.
  - cbn [check_faces].
    pose proof (check_drowsiness_low cfg now ear d Hear) as H1.
    destruct (check_drowsiness cfg now ear d) as [d1 out1].
    specialize (IH d1).
    destruct (check_faces cfg now ears d1) as [d2 out2].
    cbn zeta in *.
    destruct H1 as (Hc1 & Hd1 & Ho1 & _), IH as (Hc2 & Hd2 & Ho2).
    unfold onsets in *. rewrite count_if_app, Ho1, Ho2, Hc2, Hd2, Hd1, Hc1.
    rewrite length_cons, Nat2Z.inj_succ.
    set (T := DROWSINESS_FRAMES_THRESHOLD cfg).
    set (c := eye_closed_frames d).
    set (n := Z.of_nat (length ears)).
    assert (0 <= n) by (subst n; lia).
    destruct (is_drowsy d); cbn [negb andb orb];
      destruct (Z.leb_spec T (c + 1));
      destruct (Z.ltb_spec 0 n);
      destruct (Z.ltb_spec 0 (Z.succ n));
      destruct (Z.leb_spec T (c + 1 + n));
      destruct (Z.leb_spec T (c + Z.succ n));
      cbn [negb andb orb]; repeat split; lia.
Qed.

(** ** The invariant of the state machine *)

Lemma check_drowsiness_inv cfg now ear d :
  drowsy_inv cfg d -> drowsy_inv cfg (fst (check_drowsiness cfg now ear d)).
Proof.
  intros [Hd Hc]. destruct (ear <? EAR_THRESHOLD cfg)%float eqn:Hear.
  - pose proof (check_drowsiness_low cfg now ear d Hear) as H.
    destruct (check_drowsiness cfg now ear d) as [d' out]. cbn [fst].
    destruct H as (Hc' & Hd' & _). split; [|lia].
    rewrite Hd', Hc'. intros Hor.
    apply orb_true_iff in Hor. destruct Hor as [Hor|Hor].
    + specialize (Hd Hor). lia.
    + apply andb_true_iff in Hor. destruct Hor as [_ Hor].
      apply Z.leb_le in Hor. lia.
  - rewrite (check_drowsiness_high cfg now ear d Hear).
    unfold drowsy_inv. cbn. split; [discriminate|lia].
Qed.

Lemma check_faces_inv cfg now ears d :
  drowsy_inv cfg d -> drowsy_inv cfg (fst (check_faces cfg now ears d)).
Proof.
  revert d. induction ears as [|ear ears IH]; intros d Hd; cbn; [exact Hd|].
  pose proof (check_drowsiness_inv cfg now ear d Hd) as H1.
  destruct (check_drowsiness cfg now ear d) as [d1 out1].
  specialize (IH d1 H1).
  now destruct (check_faces cfg now ears d1).
Qed.

Lemma process_frames_inv cfg frames d :
  drowsy_inv cfg d -> drowsy_inv cfg (fst (process_frames cfg frames d)).
Proof.
  revert d. induction frames as [|fr frames IH]; intros d Hd; cbn; [exact Hd|].
  pose proof (check_faces_inv cfg (clock fr) (map face_ear (faces fr)) d Hd) as H1.
  unfold process_frame.
  destruct (check_faces _ _ _ d) as [d1 out1].
  specialize (IH d1 H1).
  now destruct (process_frames cfg frames d1).
Qed.

Lemma init_inv cfg t0 : drowsy_inv cfg (init t0).
Proof. split; [discriminate|reflexivity]. Qed.

Lemma below_faces_all_below cfg shapes :
  forallb (below cfg) shapes = true -> all_below cfg (map face_ear shapes).
Proof.
  intros H. unfold all_below. rewrite Forall_map.
  rewrite forallb_forall in H. apply Forall_forall. exact H.
Qed.

(** Over frames whose faces are all below the threshold the flag can only
    go up, so it goes up at most once. *)
Lemma low_run_rises_once cfg frames d :
  Forall (fun fr => forallb (below cfg) (faces fr) = true) frames ->
  (rising_edges (is_drowsy d) (drowsy_trace cfg frames d) <= 1)%nat /\
  (is_drowsy d = true ->
   rising_edges (is_drowsy d) (drowsy_trace cfg frames d) = 0%nat).
Proof.
  intros Hlow. revert d.
  induction Hlow as [|fr frames Hfr _ IH]; intros d; cbn; [split; [lia|reflexivity]|].
  unfold process_frame.
  pose proof (check_faces_low cfg (clock fr) (map face_ear (faces fr)) d
                (below_faces_all_below cfg _ Hfr)) as H1.
  destruct (check_faces _ _ _ d) as [d1 out1]. cbn [fst].
  destruct H1 as (_ & Hd1 & _).
  destruct (IH d1) as [IH1 IH2].
  destruct (is_drowsy d) eqn:Hd; cbn [orb] in Hd1.
  - rewrite Hd1 in *. cbn. split; [rewrite IH2; [lia|reflexivity]|intros _; now apply IH2].
  - destruct (is_drowsy d1) eqn:Hd1'; cbn.
    + rewrite IH2 by reflexivity. split; [lia|discriminate].
    + split; [lia|discriminate].
Qed.

(** C5: in every state reached from the initial one by calls of
    [process_frame] with the thresholds fixed, [is_drowsy] implies that
    [eye_closed_frames] is at least the frame threshold, and
    [eye_closed_frames] is not negative; over any further run of frames whose
    faces are all below the EAR threshold, [is_drowsy] goes from false to true
    at most once. *)
Theorem drowsy_implies_counter_at_threshold cfg d :
  reachable cfg d ->
  (is_drowsy d = true ->
   DROWSINESS_FRAMES_THRESHOLD cfg <= eye_closed_frames d) /\
  0 <= eye_closed_frames d /\
  (forall frames,
     Forall (fun fr => forallb (below cfg) (faces fr) = true) frames ->
     (rising_edges (is_drowsy d) (drowsy_trace cfg frames d) <= 1)%nat).
Proof.
  intros (t0 & frames0 & <-).
  destruct (process_frames_inv cfg frames0 (init t0) (init_inv cfg t0)) as [H1 H2].
  repeat split; try assumption.
  intros frames Hlow. now apply low_run_rises_once.
Qed.

Lemma drowsy_implies_counter_at_threshold_witness :
  let d := fst (process_frames scenario_config (firstn 4 scenario_frames) (init 0%float)) in
  reachable scenario_config d /\
  is_drowsy d = true /\
  ((is_drowsy d = true ->
    DROWSINESS_FRAMES_THRESHOLD scenario_config <= eye_closed_frames d) /\
   0 <= eye_closed_frames d /\
   (forall frames,
      Forall (fun fr => forallb (below scenario_config) (faces fr) = true) frames ->
      (rising_edges (is_drowsy d) (drowsy_trace scenario_config frames d) <= 1)%nat)).
Proof.
  assert (Hr : reachable scenario_config
                 (fst (process_frames scenario_config (firstn 4 scenario_frames)
                         (init 0%float)))).
  { exists 0%float, (firstn 4 scenario_frames). reflexivity. }
  split; [exact Hr|]. split; [reflexivity|].
  exact (drowsy_implies_counter_at_threshold scenario_config _ Hr).
Defined.

(** ** Frames with a single face *)

Lemma process_frame_single cfg fr ear d :
  map face_ear (faces fr) = [ear] ->
  let '(d', out) := process_frame cfg fr d in
  if (ear <? EAR_THRESHOLD cfg)%float then
    let fire :=
      negb (is_drowsy d) &&
      (DROWSINESS_FRAMES_THRESHOLD cfg <=? eye_closed_frames d + 1) in
    eye_closed_frames d' = eye_closed_frames d + 1 /\
    is_drowsy d' = is_drowsy d || fire /\
    onsets out = (if fire then 1 else 0)
  else
    eye_closed_frames d' = 0 /\ is_drowsy d' = false /\ onsets out = 0.
Proof.
  intros Hears. unfold process_frame. rewrite Hears. cbn [check_faces].
  destruct (ear <? EAR_THRESHOLD cfg)%float eqn:Hear.
  - pose proof (check_drowsiness_low cfg (clock fr) ear d Hear) as H.
    destruct (check_drowsiness cfg (clock fr) ear d) as [d' out].
    rewrite app_nil_r. cbn zeta in H. destruct H as (H1 & H2 & H3 & _). auto.
  - rewrite (check_drowsiness_high cfg (clock fr) ear d Hear). cbn. auto.
Qed.

(** From a state in which the flag tells whether the counter is at the
    threshold, single faces below the threshold fire the onset in the frame
    that brings the counter to the threshold, and in no other. *)
Lemma low_single_frames cfg frames d :
  is_drowsy d =
    (DROWSINESS_FRAMES_THRESHOLD cfg <=? eye_closed_frames d) ->
  Forall (fun fr => exists f, faces fr = [f] /\ below cfg f = true) frames ->
  let '(d', outs) := process_frames cfg frames d in
  forall i, (i < length frames)%nat ->
    nth i (map onsets outs) 0 =
      if eye_closed_frames d + Z.of_nat i + 1 =? DROWSINESS_FRAMES_THRESHOLD cfg
      then 1 else 0.
Proof.
  intros Hd Hlow. revert d Hd.
  induction Hlow as [|fr frames (f & Hf & Hb) _ IH]; intros d Hd;
    cbn [process_frames].
  - intros i Hi. cbn in Hi. lia.
  - assert (Hears : map face_ear (faces fr) = [face_ear f]) by now rewrite Hf.
    pose proof (process_frame_single cfg fr (face_ear f) d Hears) as H1.
    unfold below in Hb. rewrite Hb in H1.
    destruct (process_frame cfg fr d) as [d1 out1].
    cbn zeta in H1. destruct H1 as (Hc1 & Hd1 & Ho1).
    assert (Hinv : is_drowsy d1 =
                   (DROWSINESS_FRAMES_THRESHOLD cfg <=? eye_closed_frames d1)).
    { rewrite Hd1, Hc1, Hd.
      destruct (Z.leb_spec (DROWSINESS_FRAMES_THRESHOLD cfg) (eye_closed_frames d));
        destruct (Z.leb_spec (DROWSINESS_FRAMES_THRESHOLD cfg) (eye_closed_frames d + 1));
        cbn; reflexivity || lia. }
    specialize (IH d1 Hinv).
    destruct (process_frames cfg frames d1) as [d2 outs].
    intros [|i] Hi; cbn [map nth].
    + rewrite Ho1, Hd.
      destruct (Z.leb_spec (DROWSINESS_FRAMES_THRESHOLD cfg) (eye_closed_frames d));
        destruct (Z.leb_spec (DROWSINESS_FRAMES_THRESHOLD cfg) (eye_closed_frames d + 1));
        destruct (Z.eqb_spec (eye_closed_frames d + Z.of_nat 0 + 1)
                    (DROWSINESS_FRAMES_THRESHOLD cfg));
        cbn; reflexivity || lia.
    + rewrite IH by (cbn in Hi; lia). rewrite Hc1.
      replace (eye_closed_frames d + 1 + Z.of_nat i + 1)
        with (eye_closed_frames d + Z.of_nat (S i) + 1) by lia.
      reflexivity.
Qed.

(** C1: with thresholds 0.25 and 3, five frames with one face each and EAR
    0.30, 0.20, 0.18, 0.19, 0.30, processed from the initial state, emit
    exactly one onset, in the fourth frame, and the state is Alert again with
    the counter at 0 after the fifth.  In general, from a state that is Alert
    with the counter at 0, a run of single faces below the threshold fires
    the onset in the frame in which the counter reaches the frame threshold
    and in no other frame, however long the run is. *)
Theorem onset_fires_once_at_threshold :
  (forall t0 frames,
     ears_of frames = scenario_ears ->
     let '(d, outs) := process_frames scenario_config frames (init t0) in
     map onsets outs = [0; 0; 0; 1; 0] /\
     drowsy_trace scenario_config frames (init t0)
       = [false; false; false; true; false] /\
     is_drowsy d = false /\
     eye_closed_frames d = 0) /\
  (forall cfg d0 frames,
     is_drowsy d0 = false ->
     eye_closed_frames d0 = 0 ->
     1 <= DROWSINESS_FRAMES_THRESHOLD cfg ->
     Forall (fun fr => exists f, faces fr = [f] /\ below cfg f = true) frames ->
     let '(d, outs) := process_frames cfg frames d0 in
     forall i, (i < length frames)%nat ->
       nth i (map onsets outs) 0 =
         if Z.of_nat i + 1 =? DROWSINESS_FRAMES_THRESHOLD cfg then 1 else 0).
Proof.
  split.
  - intros t0 frames Hears.
    destruct frames as [|fr1 [|fr2 [|fr3 [|fr4 [|fr5 [|fr6 frames]]]]]];
      try discriminate Hears.
    cbn in Hears. injection Hears as H1 H2 H3 H4 H5.
    cbn [process_frames drowsy_trace].
    pose proof (process_frame_single scenario_config fr1 _ (init t0) H1) as S1.
    destruct (process_frame scenario_config fr1 (init t0)) as [d1 out1]. cbn [fst].
    pose proof (process_frame_single scenario_config fr2 _ d1 H2) as S2.
    destruct (process_frame scenario_config fr2 d1) as [d2 out2]. cbn [fst].
    pose proof (process_frame_single scenario_config fr3 _ d2 H3) as S3.
    destruct (process_frame scenario_config fr3 d2) as [d3 out3]. cbn [fst].
    pose proof (process_frame_single scenario_config fr4 _ d3 H4) as S4.
    destruct (process_frame scenario_config fr4 d3) as [d4 out4]. cbn [fst].
    pose proof (process_frame_single scenario_config fr5 _ d4 H5) as S5.
    destruct (process_frame scenario_config fr5 d4) as [d5 out5]. cbn [fst].
    cbn in S1. destruct S1 as (C1 & D1 & O1).
    rewrite C1, D1 in S2. cbn in S2. destruct S2 as (C2 & D2 & O2).
    rewrite C2, D2 in S3. cbn in S3. destruct S3 as (C3 & D3 & O3).
    rewrite C3, D3 in S4. cbn in S4. destruct S4 as (C4 & D4 & O4).
    cbn in S5. destruct S5 as (C5 & D5 & O5).
    cbn [map fst]. rewrite O1, O2, O3, O4, O5, D1, D2, D3, D4, D5, C5. auto.
  - intros cfg d0 frames Hd0 Hc0 HT Hlow.
    pose proof (low_single_frames cfg frames d0) as H.
    rewrite Hd0, Hc0 in H.
    assert (Hd : false = (DROWSINESS_FRAMES_THRESHOLD cfg <=? 0)).
    { symmetry. apply Z.leb_gt. lia. }
    specialize (H Hd Hlow).
    destruct (process_frames cfg frames d0) as [d outs].
    intros i Hi. rewrite (H i Hi). reflexivity.
Qed.

Lemma onset_fires_once_at_threshold_witness :
  (ears_of scenario_frames = scenario_ears /\
   let '(d, outs) :=
     process_frames scenario_config scenario_frames (init 1699999990%float) in
   map onsets outs = [0; 0; 0; 1; 0] /\
   drowsy_trace scenario_config scenario_frames (init 1699999990%float)
     = [false; false; false; true; false] /\
   is_drowsy d = false /\
   eye_closed_frames d = 0) /\
  (1 <= DROWSINESS_FRAMES_THRESHOLD scenario_config /\
   Forall (fun fr => exists f, faces fr = [f] /\ below scenario_config f = true)
          (repeat (mkFrame [face_020] 1700000000%float) 5) /\
   let '(d, outs) :=
     process_frames scenario_config
       (repeat (mkFrame [face_020] 1700000000%float) 5) (init 1699999990%float) in
   forall i, (i < 5)%nat ->
     nth i (map onsets outs) 0 =
       if Z.of_nat i + 1 =? DROWSINESS_FRAMES_THRESHOLD scenario_config
       then 1 else 0).
Proof.
  assert (H1 : ears_of scenario_frames = scenario_ears) by reflexivity.
  assert (H2 : 1 <= DROWSINESS_FRAMES_THRESHOLD scenario_config)
    by (cbn; lia).
  assert (H3 : Forall
                 (fun fr => exists f,
                      faces fr = [f] /\ below scenario_config f = true)
                 (repeat (mkFrame [face_020] 1700000000%float) 5)).
  { repeat constructor; exists face_020; split; reflexivity. }
  split.
  - split; [exact H1|].
    exact (proj1 onset_fires_once_at_threshold 1699999990%float
             scenario_frames H1).
  - split; [exact H2|]. split; [exact H3|].
    exact (proj2 onset_fires_once_at_threshold scenario_config
             (init 1699999990%float) _ eq_refl eq_refl H2 H3).
Defined.

(** ** Several faces in one frame *)

Lemma process_frame_app cfg shapes1 shapes2 now d :
  process_frame cfg (mkFrame (shapes1 ++ shapes2) now) d =
    let '(d1, out1) := process_frame cfg (mkFrame shapes1 now) d in
    let '(d2, out2) := process_frame cfg (mkFrame shapes2 now) d1 in
    (d2, out1 ++ out2).
Proof.
  unfold process_frame. cbn [faces clock]. rewrite map_app.
  apply check_faces_app.
Qed.

(** C7: the code does not do what the claim says, and not what
    [config.py] says of [DROWSINESS_FRAMES_THRESHOLD] either ("number of
    consecutive frames with closed eyes to trigger alert").  With
    thresholds 0.25 and 3, one single frame showing three faces with closed
    eyes takes the initial state to [eye_closed_frames = 3] and Drowsy and
    emits the onset, because the counter update of lines 147-154 runs once
    per face; the last face of that frame alone leaves the counter at 1 and
    the state Alert. *)
Theorem crowded_frame_drowsy_in_one_frame :
  faces crowded_frame = [face_020; face_020; face_020] /\
  map (below scenario_config) (faces crowded_frame) = [true; true; true] /\
  detection_state
    (fst (process_frame scenario_config crowded_frame (init 0%float)))
    = (3, true) /\
  onsets (snd (process_frame scenario_config crowded_frame (init 0%float)))
    = 1 /\
  detection_state
    (fst (process_frame scenario_config
            (mkFrame [last (faces crowded_frame) (fun _ => (0, 0))]
                     (clock crowded_frame))
            (init 0%float)))
    = (1, false) /\
  ~ last_face_drives scenario_config crowded_frame (init 0%float).
Proof.
  split; [reflexivity|]. split; [reflexivity|]. split; [reflexivity|].
  split; [reflexivity|]. split; [reflexivity|].
  intros H. assert (H2 : (2 <= length (faces crowded_frame))%nat) by (cbn; lia).
  specialize (H H2). discriminate H.
Qed.

(** ** The dispatcher *)

Lemma handle_drowsiness_detection_eq cfg now d :
  handle_drowsiness_detection cfg now d =
    (mkDetector (is_drowsy d) (eye_closed_frames d)
       (if audio_due cfg now d then now else last_alert_time d)
       (if email_due cfg now d then now else last_email_time d)
       (running d) (total_frames d) (drowsy_detections d)
       (session_start_time d),
     (if audio_due cfg now d then [PlayAlert now] else []) ++
     (if email_due cfg now d then [SendAlert now] else [])).
Proof.
  unfold handle_drowsiness_detection.
  destruct (audio_due cfg now d) eqn:Ha.
  - replace (email_due cfg now (set_last_alert_time now d))
      with (email_due cfg now d) by reflexivity.
    destruct (email_due cfg now d); reflexivity.
  - destruct (email_due cfg now d); destruct d; reflexivity.
Qed.

(** C3: when an onset is handled at time [now], the audio channel fires
    exactly when [now - last_alert_time] exceeds the audio cooldown and the
    email channel exactly when [now - last_email_time] exceeds the email
    cooldown, each on its own time stamp only; the difference is a binary64
    and it is compared with the integer cooldown exactly, as Python does.
    A channel that fires has its time stamp set to [now] in the same call,
    before the started thread has done anything, and the other time stamp
    is left alone.  With cooldowns of 5 s and 60 s, two onsets 10 s apart,
    the first of which finds both channels due, start the audio alert both
    times and the email alert only the first time. *)
Theorem alert_channels_fire_after_cooldown :
  (forall cfg now d,
     let '(d', out) := handle_drowsiness_detection cfg now d in
     let audio :=
       float_gt_int (now - last_alert_time d)%float
                    (AUDIO_ALERT_COOLDOWN cfg) in
     let email :=
       float_gt_int (now - last_email_time d)%float
                    (EMAIL_ALERT_COOLDOWN cfg) in
     out = (if audio then [PlayAlert now] else []) ++
           (if email then [SendAlert now] else []) /\
     (In (PlayAlert now) out <-> audio = true) /\
     (In (SendAlert now) out <-> email = true) /\
     last_alert_time d' = (if audio then now else last_alert_time d) /\
     last_email_time d' = (if email then now else last_email_time d)) /\
  (forall cfg t1 t2 d,
     AUDIO_ALERT_COOLDOWN cfg = 5 ->
     EMAIL_ALERT_COOLDOWN cfg = 60 ->
     audio_due cfg t1 d = true ->
     email_due cfg t1 d = true ->
     (t2 - t1)%float = 10%float ->
     let '(d1, out1) := handle_drowsiness_detection cfg t1 d in
     let '(d2, out2) := handle_drowsiness_detection cfg t2 d1 in
     out1 = [PlayAlert t1; SendAlert t1] /\
     out2 = [PlayAlert t2] /\
     last_alert_time d2 = t2 /\
     last_email_time d2 = t1).
Proof.
  split.
  - intros cfg now d. rewrite handle_drowsiness_detection_eq.
    fold (audio_due cfg now d) (email_due cfg now d). cbn zeta.
    cbn [last_alert_time last_email_time].
    repeat split; try reflexivity;
      destruct (audio_due cfg now d), (email_due cfg now d); cbn;
      intuition (try discriminate; try congruence).
  - intros cfg t1 t2 d Ha He Hda Hde Hgap.
    rewrite handle_drowsiness_detection_eq, Hda, Hde.
    rewrite handle_drowsiness_detection_eq.
    unfold audio_due, email_due.
    cbn [last_alert_time last_email_time].
    rewrite Ha, He, Hgap. cbn. auto.
Qed.

Lemma alert_channels_fire_after_cooldown_witness :
  let cfg := default_config in
  let d := init 1699999000%float in
  let t1 := 1700000000%float in
  let t2 := 1700000010%float in
  (AUDIO_ALERT_COOLDOWN cfg = 5 /\
   EMAIL_ALERT_COOLDOWN cfg = 60 /\
   audio_due cfg t1 d = true /\
   email_due cfg t1 d = true /\
   (t2 - t1)%float = 10%float) /\
  let '(d1, out1) := handle_drowsiness_detection cfg t1 d in
  let '(d2, out2) := handle_drowsiness_detection cfg t2 d1 in
  out1 = [PlayAlert t1; SendAlert t1] /\
  out2 = [PlayAlert t2] /\
  last_alert_time d2 = t2 /\
  last_email_time d2 = t1.
Proof.
  split.
  - repeat split; reflexivity.
  - exact (proj2 alert_channels_fire_after_cooldown default_config
             1700000000%float 1700000010%float (init 1699999000%float)
             eq_refl eq_refl eq_refl eq_refl eq_refl).
Defined.

(** ** The email channel *)

(** C8: [send_alert] never raises; it returns [False] without sending when
    the sender address, the password or the receiver address is empty, and
    [False] when building the message or any step of the transport raises;
    it returns [True] exactly when the three are set and every step
    succeeds. *)
Theorem send_alert_never_raises self w :
  (exists b, send_alert self w = Return b) /\
  (sender_email self = ""%string \/ sender_password self = ""%string \/
   receiver_email self = ""%string ->
   send_alert self w = Return false) /\
  (forall e,
     create_message w = Raise e \/ smtp_connect w = Raise e \/
     smtp_starttls w = Raise e \/ smtp_login w = Raise e \/
     smtp_send_message w = Raise e \/ smtp_exit w = Raise e ->
     send_alert self w = Return false) /\
  (send_alert self w = Return true <->
   sender_email self <> ""%string /\ sender_password self <> ""%string /\
   receiver_email self <> ""%string /\
   create_message w = Return tt /\ smtp_connect w = Return tt /\
   smtp_starttls w = Return tt /\ smtp_login w = Return tt /\
   smtp_send_message w = Return tt /\ smtp_exit w = Return tt).
Proof.
  assert (Hcfg : forallb truthy
                   [sender_email self; sender_password self; receiver_email self]
                 = true <->
                 sender_email self <> ""%string /\
                 sender_password self <> ""%string /\
                 receiver_email self <> ""%string).
  { unfold truthy. cbn [forallb].
    destruct (String.eqb_spec (sender_email self) "");
      destruct (String.eqb_spec (sender_password self) "");
      destruct (String.eqb_spec (receiver_email self) "");
      cbn; intuition congruence. }
  unfold send_alert, with_smtp, try_except, bind.
  destruct (forallb truthy _) eqn:Hall; cbn [negb].
  - destruct Hcfg as [Hcfg _]. specialize (Hcfg eq_refl).
    destruct Hcfg as (E1 & E2 & E3).
    destruct (create_message w) as [[]|e1], (smtp_connect w) as [[]|e2],
      (smtp_starttls w) as [[]|e3], (smtp_login w) as [[]|e4],
      (smtp_send_message w) as [[]|e5], (smtp_exit w) as [[]|e6];
      (split; [eexists; reflexivity|];
       split; [intros [?|[?|?]]; congruence|];
       split;
       [ intros e0 Hstep; try reflexivity;
         repeat (destruct Hstep as [Hstep|Hstep]; try discriminate Hstep);
         discriminate Hstep
       | split;
         [ intros Hret; try discriminate Hret; auto 10
         | intros (_ & _ & _ & ? & ? & ? & ? & ? & ?);
           try reflexivity; discriminate ] ]).
  - split; [eexists; reflexivity|].
    split; [reflexivity|]. split; [reflexivity|].
    split; [discriminate|].
    intros (E1 & E2 & E3 & _).
    destruct Hcfg as [_ Hcfg].
    specialize (Hcfg (conj E1 (conj E2 E3))). congruence.
Qed.

Lemma send_alert_never_raises_witness :
  let unconfigured := mkEmailNotifier "smtp.gmail.com" 587 "" "" "" in
  let configured :=
    mkEmailNotifier "smtp.gmail.com" 587 "a@example.org" "secret"
                    "b@example.org" in
  let fine := mkMailWorld (Return tt) (Return tt) (Return tt) (Return tt)
                          (Return tt) (Return tt) in
  let refused := mkMailWorld (Return tt) (Return tt) (Return tt)
                             (Raise (Exception "SMTPAuthenticationError"))
                             (Return tt) (Return tt) in
  send_alert unconfigured fine = Return false /\
  send_alert configured refused = Return false.
Proof.
  split.
  - refine (proj1 (proj2 (send_alert_never_raises _ _)) _). now left.
  - refine (proj1 (proj2 (proj2 (send_alert_never_raises _ _)))
              (Exception "SMTPAuthenticationError") _).
    right. right. right. now left.
Defined.

(** ** Statistics *)

Lemma Prim2SF_zero : Prim2SF 0%float = S754_zero false.
Proof. reflexivity. Qed.

Lemma Prim2SF_one : Prim2SF 1%float = S754_finite false 4503599627370496 (-52).
Proof. reflexivity. Qed.

(** The divisor of the frame rate is never a zero. *)
Lemma py_max_1_nonzero a : (py_max_1 a =? 0)%float = false.
Proof.
  unfold py_max_1, gtb. destruct (a <? 1)%float eqn:Hlt; [reflexivity|].
  rewrite ltb_spec, Prim2SF_one in Hlt.
  rewrite eqb_spec, Prim2SF_zero.
  destruct (Prim2SF a) as [s|s| |s m e]; try reflexivity.
  - destruct s; discriminate Hlt.
  - destruct s; reflexivity.
  - destruct s; reflexivity.
Qed.

(** C9: the code does not report the number of processed frames.  In a
    session in which the detection loop and the video feed of the web
    interface take two frames each, all four frames go through
    [process_frame] (the counter of closed-eye frames stands at 4 and the
    one onset falls on the third of them), and [get_statistics] then
    reports [total_frames] = 2: only [start_detection] counts the frames it
    hands to [process_frame], [generate_frames] does not.  The detections
    are reported as recorded, and the frame rate is the reported frame
    count over [max(session_time, 1)]. *)
Theorem video_feed_frames_missing_from_statistics :
  let '(s, out) :=
    session_run scenario_config feed_session (new_session 1700000000%float) in
  out = [ShowFrame; YieldFrame;
         Emitted DrowsyOnset; Emitted (PlayAlert 1700000003%float);
         Emitted (SendAlert 1700000003%float); ShowFrame;
         YieldFrame] /\
  count_if is_show out = 2 /\
  count_if is_yield out = 2 /\
  eye_closed_frames (det s) = 4 /\
  count_if (is_emitted is_onset) out = 1 /\
  get_statistics 1700000005%float (det s)
    = Some {| stat_session_time := 5%float;
              stat_total_frames := 2;
              stat_drowsy_detections := 1;
              stat_current_status := "Drowsy"%string;
              stat_fps := (2 / 5)%float |}.
Proof. repeat split; vm_compute; reflexivity. Qed.

(** ** Binary64 arithmetic: magnitudes *)

Lemma digits2_pos_size p : digits2_pos p = Pos.size p.
Proof. induction p; cbn; congruence. Qed.

Lemma Zdigits2_log2 m : 0 < m -> Zdigits2 m = Z.log2 m + 1.
Proof.
  destruct m as [|p|p]; try lia. intros _. cbn [Zdigits2].
  rewrite digits2_pos_size.
  destruct p; cbn [Pos.size Z.log2]; lia.
Qed.

Lemma Zdigits2_bounds m :
  0 < m -> 2 ^ (Zdigits2 m - 1) <= m < 2 ^ Zdigits2 m.
Proof.
  intros Hm. rewrite Zdigits2_log2 by assumption.
  replace (Z.log2 m + 1 - 1) with (Z.log2 m) by lia.
  replace (Z.log2 m + 1) with (Z.succ (Z.log2 m)) by lia.
  now apply Z.log2_spec.
Qed.

Lemma Zdigits2_unique m d :
  0 < d -> 2 ^ (d - 1) <= m < 2 ^ d -> Zdigits2 m = d.
Proof.
  intros Hd Hm.
  assert (0 < m) by (pose proof (Z.pow_pos_nonneg 2 (d - 1)); lia).
  rewrite Zdigits2_log2 by assumption.
  rewrite (Z.log2_unique m (d - 1)); try lia.
  now replace (Z.succ (d - 1)) with d by lia.
Qed.

Lemma Zdigits2_pos m : 0 < m -> 0 < Zdigits2 m.
Proof.
  intros Hm. rewrite Zdigits2_log2 by assumption.
  pose proof (Z.log2_nonneg m). lia.
Qed.

Lemma Zdigits2_le m n : 0 < m -> m <= n -> Zdigits2 m <= Zdigits2 n.
Proof.
  intros Hm Hn. rewrite !Zdigits2_log2 by lia.
  pose proof (Z.log2_le_mono m n Hn). lia.
Qed.

Lemma Zdigits2_lt_pow m d : 0 < m -> m < 2 ^ d -> Zdigits2 m <= d.
Proof.
  intros Hm Hlt.
  destruct (Z.le_gt_cases (Zdigits2 m) d) as [|Hgt]; [assumption|].
  pose proof (Zdigits2_bounds m Hm) as [Hlo _].
  assert (2 ^ d <= 2 ^ (Zdigits2 m - 1)).
  { apply Z.pow_le_mono_r; lia. }
  lia.
Qed.

Lemma Zdigits2_ge_pow m d : 0 <= d -> 2 ^ d <= m -> d + 1 <= Zdigits2 m.
Proof.
  intros Hd Hle.
  assert (0 < m) by (pose proof (Z.pow_pos_nonneg 2 d); lia).
  rewrite Zdigits2_log2 by assumption.
  pose proof (Z.log2_le_pow2 m d). lia.
Qed.

(** Shifting right. *)
Lemma shr_1_m mrs : 0 <= shr_m mrs -> shr_m (shr_1 mrs) = Z.div2 (shr_m mrs).
Proof.
  destruct mrs as [m r s]. cbn [shr_m]. intros Hm.
  destruct m as [|[p|p|]|p]; try reflexivity; lia.
Qed.

Lemma iter_pos_shr_1_m p mrs :
  0 <= shr_m mrs ->
  shr_m (iter_pos shr_1 p mrs) = shr_m mrs / 2 ^ Zpos p.
Proof.
  revert mrs. induction p as [p IH|p IH|]; intros mrs Hm; cbn [iter_pos].
  - assert (H1 : 0 <= shr_m (shr_1 mrs)).
    { rewrite shr_1_m by assumption. rewrite Z.div2_div.
      apply Z.div_pos; lia. }
    assert (H2 : 0 <= shr_m (iter_pos shr_1 p (shr_1 mrs))).
    { rewrite IH by assumption. apply Z.div_pos; [assumption|].
      apply Z.pow_pos_nonneg; lia. }
    rewrite IH, IH, shr_1_m by assumption.
    rewrite Z.div2_div, !Z.div_div by (try apply Z.pow_pos_nonneg; lia).
    f_equal. replace (Zpos p~1) with (1 + Zpos p + Zpos p) by lia.
    rewrite !Z.pow_add_r by lia. lia.
  - assert (H2 : 0 <= shr_m (iter_pos shr_1 p mrs)).
    { rewrite IH by assumption. apply Z.div_pos; [assumption|].
      apply Z.pow_pos_nonneg; lia. }
    rewrite IH, IH by assumption.
    rewrite !Z.div_div by (try apply Z.pow_pos_nonneg; lia).
    f_equal. replace (Zpos p~0) with (Zpos p + Zpos p) by lia.
    rewrite !Z.pow_add_r by lia. lia.
  - rewrite shr_1_m by assumption. now rewrite Z.div2_div.
Qed.

Lemma shr_record_of_loc_m m l : shr_m (shr_record_of_loc m l) = m.
Proof. destruct l as [|[]]; reflexivity. Qed.

(** The exponent function in the range of normal numbers. *)
Lemma fexp_normal x : -1021 <= x -> fexp prec emax x = x - 53.
Proof. unfold fexp, SpecFloat.emin, prec, emax. lia. Qed.

(** Dividing by a power of two removes that many digits. *)
Lemma Zdigits2_div_pow2 m n :
  0 < m -> 0 <= n -> n < Zdigits2 m ->
  0 < m / 2 ^ n /\ Zdigits2 (m / 2 ^ n) = Zdigits2 m - n.
Proof.
  intros Hm Hn Hlt.
  pose proof (Zdigits2_bounds m Hm) as [Hlo Hhi].
  assert (Hp : 0 < 2 ^ n) by (apply Z.pow_pos_nonneg; lia).
  assert (Hq : 2 ^ (Zdigits2 m - n - 1) <= m / 2 ^ n < 2 ^ (Zdigits2 m - n)).
  { split.
    - apply Z.div_le_lower_bound; [assumption|].
      rewrite <- Z.pow_add_r by lia.
      now replace (n + (Zdigits2 m - n - 1)) with (Zdigits2 m - 1) by lia.
    - apply Z.div_lt_upper_bound; [assumption|].
      rewrite <- Z.pow_add_r by lia.
      now replace (n + (Zdigits2 m - n)) with (Zdigits2 m) by lia. }
  split.
  - pose proof (Z.pow_pos_nonneg 2 (Zdigits2 m - n - 1)). lia.
  - apply Zdigits2_unique; [lia|exact Hq].
Qed.

Lemma shr_fexp_mag m e l :
  0 < m -> -1021 <= Zdigits2 m + e ->
  let '(mrs, e') := shr_fexp prec emax m e l in
  0 < shr_m mrs /\
  Zdigits2 (shr_m mrs) + e' = Zdigits2 m + e /\
  Zdigits2 (shr_m mrs) <= 53 /\
  (e' = e \/ Zdigits2 (shr_m mrs) = 53).
Proof.
  intros Hm Hmag. unfold shr_fexp, shr.
  rewrite fexp_normal by assumption.
  destruct (Zdigits2 m + e - 53 - e) as [|n|n] eqn:Hn.
  - rewrite shr_record_of_loc_m. repeat split; lia.
  - rewrite iter_pos_shr_1_m by (rewrite shr_record_of_loc_m; lia).
    rewrite shr_record_of_loc_m.
    destruct (Zdigits2_div_pow2 m (Zpos n)) as [Hq Hd]; lia.
  - rewrite shr_record_of_loc_m. repeat split; lia.
Qed.

Lemma round_nearest_even_cases m l :
  round_nearest_even m l = m \/ round_nearest_even m l = m + 1.
Proof.
  destruct l as [|[]]; cbn; auto. destruct (Z.even m); auto.
Qed.

Lemma Zdigits2_succ m :
  0 < m -> Zdigits2 m <= Zdigits2 (m + 1) <= Zdigits2 m + 1.
Proof.
  intros Hm. split.
  - apply Zdigits2_le; lia.
  - apply Zdigits2_lt_pow; [lia|].
    pose proof (Zdigits2_bounds m Hm) as [_ Hhi].
    pose proof (Zdigits2_pos m Hm).
    rewrite Z.pow_add_r by lia. lia.
Qed.

(** Rounding keeps a positive number in the range of normal numbers finite,
    with its sign, and moves its magnitude up by at most one. *)
Lemma binary_round_aux_mag sx mx ex lx :
  0 < mx -> -1021 <= Zdigits2 mx + ex <= 972 ->
  exists m e,
    binary_round_aux prec emax sx mx ex lx = S754_finite sx m e /\
    Zdigits2 mx + ex <= Zpos (digits2_pos m) + e <= Zdigits2 mx + ex + 1.
Proof.
  intros Hm Hmag. unfold binary_round_aux.
  pose proof (shr_fexp_mag mx ex lx Hm (proj1 Hmag)) as H1.
  destruct (shr_fexp prec emax mx ex lx) as [mrs1 e1].
  destruct H1 as (Hm1 & Hd1 & Hp1 & Hc1).
  set (m2 := round_nearest_even (shr_m mrs1) (loc_of_shr_record mrs1)).
  assert (Hm2 : 0 < m2 /\
                Zdigits2 (shr_m mrs1) <= Zdigits2 m2 <= Zdigits2 (shr_m mrs1) + 1).
  { subst m2.
    destruct (round_nearest_even_cases (shr_m mrs1) (loc_of_shr_record mrs1))
      as [-> | ->].
    - split; lia.
    - split; [lia|]. now apply Zdigits2_succ. }
  destruct Hm2 as [Hm2 Hd2].
  assert (Hmag2 : -1021 <= Zdigits2 m2 + e1) by lia.
  pose proof (shr_fexp_mag m2 e1 loc_Exact Hm2 Hmag2) as H3.
  destruct (shr_fexp prec emax m2 e1 loc_Exact) as [mrs3 e3].
  destruct H3 as (Hm3 & Hd3 & Hp3 & Hc3).
  pose proof (Zdigits2_pos _ Hm1). pose proof (Zdigits2_pos _ Hm3).
  destruct (shr_m mrs3) as [|m3|m3] eqn:Em3; try lia.
  assert (He3 : (e3 <=? emax - prec) = true).
  { apply Z.leb_le. unfold emax, prec. lia. }
  rewrite He3. exists m3, e3. split; [reflexivity|].
  cbn [Zdigits2] in Hd3. lia.
Qed.

Lemma Zdigits2_mul a b :
  0 < a -> 0 < b ->
  Zdigits2 a + Zdigits2 b - 1 <= Zdigits2 (a * b) <= Zdigits2 a + Zdigits2 b.
Proof.
  intros Ha Hb.
  pose proof (Zdigits2_bounds a Ha) as [Ha1 Ha2].
  pose proof (Zdigits2_bounds b Hb) as [Hb1 Hb2].
  pose proof (Zdigits2_pos a Ha). pose proof (Zdigits2_pos b Hb).
  assert (0 < 2 ^ (Zdigits2 a - 1)) by (apply Z.pow_pos_nonneg; lia).
  assert (0 < 2 ^ (Zdigits2 b - 1)) by (apply Z.pow_pos_nonneg; lia).
  split.
  - assert (Zdigits2 a + Zdigits2 b - 2 + 1 <= Zdigits2 (a * b)); [|lia].
    apply Zdigits2_ge_pow; [lia|].
    replace (Zdigits2 a + Zdigits2 b - 2)
      with ((Zdigits2 a - 1) + (Zdigits2 b - 1)) by lia.
    rewrite Z.pow_add_r by lia. nia.
  - apply Zdigits2_lt_pow; [nia|].
    rewrite Z.pow_add_r by lia. nia.
Qed.

Lemma Zdigits2_mul_pow2 a k :
  0 < a -> 0 <= k -> Zdigits2 (a * 2 ^ k) = Zdigits2 a + k.
Proof.
  intros Ha Hk.
  pose proof (Zdigits2_bounds a Ha) as [Ha1 Ha2].
  pose proof (Zdigits2_pos a Ha).
  assert (0 < 2 ^ k) by (apply Z.pow_pos_nonneg; lia).
  apply Zdigits2_unique; [lia|].
  replace (Zdigits2 a + k - 1) with ((Zdigits2 a - 1) + k) by lia.
  rewrite !Z.pow_add_r by lia. nia.
Qed.

Lemma Zdigits2_add a b :
  0 < a -> 0 < b ->
  Z.max (Zdigits2 a) (Zdigits2 b) <= Zdigits2 (a + b)
    <= Z.max (Zdigits2 a) (Zdigits2 b) + 1.
Proof.
  intros Ha Hb.
  pose proof (Zdigits2_bounds a Ha) as [Ha1 Ha2].
  pose proof (Zdigits2_bounds b Hb) as [Hb1 Hb2].
  pose proof (Zdigits2_pos a Ha). pose proof (Zdigits2_pos b Hb).
  split.
  - pose proof (Zdigits2_le a (a + b)). pose proof (Zdigits2_le b (a + b)). lia.
  - apply Zdigits2_lt_pow; [lia|].
    rewrite Z.pow_add_r by lia.
    assert (2 ^ Zdigits2 a <= 2 ^ Z.max (Zdigits2 a) (Zdigits2 b))
      by (apply Z.pow_le_mono_r; lia).
    assert (2 ^ Zdigits2 b <= 2 ^ Z.max (Zdigits2 a) (Zdigits2 b))
      by (apply Z.pow_le_mono_r; lia).
    lia.
Qed.

Lemma Pos_iter_xO m d : Zpos (Pos.iter xO m d) = Zpos m * 2 ^ Zpos d.
Proof.
  induction d as [|d IH] using Pos.peano_ind.
  - cbn. lia.
  - rewrite Pos.iter_succ, Pos2Z.inj_succ, Z.pow_succ_r by lia.
    rewrite Pos2Z.inj_xO, IH. lia.
Qed.

(** Aligning to a smaller exponent keeps the value, hence the magnitude. *)
Lemma shl_align_spec mx ex ex' :
  let '(mz, ez) := shl_align mx ex ex' in
  ez <= ex /\ Zpos mz = Zpos mx * 2 ^ (ex - ez) /\ (ex' <= ex -> ez = ex').
Proof.
  unfold shl_align. destruct (ex' - ex) as [|d|d] eqn:Hd.
  - rewrite Z.sub_diag. cbn. lia.
  - rewrite Z.sub_diag. cbn. lia.
  - rewrite Pos_iter_xO. replace (ex - ex') with (Zpos d) by lia. lia.
Qed.

Lemma shl_align_mag mx ex ex' :
  let '(mz, ez) := shl_align mx ex ex' in
  Zpos (digits2_pos mz) + ez = Zpos (digits2_pos mx) + ex.
Proof.
  pose proof (shl_align_spec mx ex ex') as H.
  destruct (shl_align mx ex ex') as [mz ez]. destruct H as (H1 & H2 & _).
  change (Zdigits2 (Zpos mz) + ez = Zdigits2 (Zpos mx) + ex).
  rewrite H2, Zdigits2_mul_pow2 by lia. lia.
Qed.

Lemma binary_round_mag sx mx ex :
  -1021 <= Zpos (digits2_pos mx) + ex <= 972 ->
  finite_in sx (Zpos (digits2_pos mx) + ex) (Zpos (digits2_pos mx) + ex + 1)
            (binary_round prec emax sx mx ex).
Proof.
  intros Hmag. unfold binary_round.
  pose proof (shl_align_mag mx ex
                (fexp prec emax (Zpos (digits2_pos mx) + ex))) as H.
  destruct (shl_align mx ex _) as [mz ez].
  destruct (binary_round_aux_mag sx (Zpos mz) ez loc_Exact) as (m & e & Hr & Hb);
    [lia | cbn [Zdigits2]; lia |].
  exists m, e. split; [exact Hr|]. cbn [Zdigits2] in Hb. lia.
Qed.

Lemma SFmul_mag s1 s2 lo1 hi1 lo2 hi2 x y :
  finite_in s1 lo1 hi1 x -> finite_in s2 lo2 hi2 y ->
  -1021 <= lo1 + lo2 - 1 -> hi1 + hi2 <= 972 ->
  finite_in (xorb s1 s2) (lo1 + lo2 - 1) (hi1 + hi2 + 1) (SFmul prec emax x y).
Proof.
  intros (m1 & e1 & -> & H1) (m2 & e2 & -> & H2) Hlo Hhi. cbn [SFmul].
  pose proof (Zdigits2_mul (Zpos m1) (Zpos m2)) as Hd.
  change (Zpos m1 * Zpos m2) with (Zpos (m1 * m2)) in Hd.
  cbn [Zdigits2] in Hd.
  destruct (binary_round_aux_mag (xorb s1 s2) (Zpos (m1 * m2)) (e1 + e2) loc_Exact)
    as (m & e & Hr & Hb); [lia | cbn [Zdigits2]; lia |].
  exists m, e. split; [exact Hr|].
  cbn [Zdigits2] in Hb. lia.
Qed.

Lemma SFadd_mag lo hi x y :
  nonneg_in lo hi x -> nonneg_in lo hi y ->
  -1021 <= lo -> hi + 1 <= 972 ->
  nonneg_in lo (hi + 2) (SFadd prec emax x y) /\
  (finite_in false lo hi x \/ finite_in false lo hi y ->
   finite_in false lo (hi + 2) (SFadd prec emax x y)).
Proof.
  intros Hx Hy Hlo Hhi.
  assert (Hwiden : forall z, finite_in false lo hi z ->
                             finite_in false lo (hi + 2) z).
  { intros z (m & e & -> & Hb). exists m, e. split; [reflexivity|lia]. }
  assert (Hff : forall m1 e1 m2 e2,
             lo <= Zpos (digits2_pos m1) + e1 <= hi ->
             lo <= Zpos (digits2_pos m2) + e2 <= hi ->
             finite_in false lo (hi + 2)
               (SFadd prec emax (S754_finite false m1 e1)
                                (S754_finite false m2 e2))).
  { intros m1 e1 m2 e2 H1 H2. cbn [SFadd cond_Zopp].
    pose proof (shl_align_spec m1 e1 (Z.min e1 e2)) as A1.
    pose proof (shl_align_spec m2 e2 (Z.min e1 e2)) as A2.
    destruct (shl_align m1 e1 (Z.min e1 e2)) as [a ea].
    destruct (shl_align m2 e2 (Z.min e1 e2)) as [b eb].
    destruct A1 as (A1a & A1b & A1c), A2 as (A2a & A2b & A2c).
    specialize (A1c ltac:(lia)). specialize (A2c ltac:(lia)).
    cbn [fst]. change (Zpos a + Zpos b) with (Zpos (a + b)).
    cbn [binary_normalize].
    assert (Hda : Zdigits2 (Zpos a) = Zpos (digits2_pos m1) + e1 - ea).
    { rewrite A1b. change (Zpos (digits2_pos m1)) with (Zdigits2 (Zpos m1)).
      rewrite Zdigits2_mul_pow2 by lia. lia. }
    assert (Hdb : Zdigits2 (Zpos b) = Zpos (digits2_pos m2) + e2 - eb).
    { rewrite A2b. change (Zpos (digits2_pos m2)) with (Zdigits2 (Zpos m2)).
      rewrite Zdigits2_mul_pow2 by lia. lia. }
    pose proof (Zdigits2_add (Zpos a) (Zpos b)) as Hs.
    change (Zpos a + Zpos b) with (Zpos (a + b)) in Hs.
    specialize (Hs ltac:(lia) ltac:(lia)).
    rewrite Hda, Hdb in Hs. cbn [Zdigits2] in Hs.
    destruct (binary_round_mag false (a + b) (Z.min e1 e2))
      as (m & e & Hr & Hb); [lia|].
    exists m, e. split; [exact Hr|lia]. }
  destruct Hx as [->|Hx], Hy as [->|Hy].
  - split; [now left|]. intros [(m & e & H & _)|(m & e & H & _)]; discriminate H.
  - assert (E : SFadd prec emax (S754_zero false) y = y).
    { destruct Hy as (m & e & -> & _). reflexivity. }
    rewrite E. split; [right|intros _]; now apply Hwiden.
  - assert (E : SFadd prec emax x (S754_zero false) = x).
    { destruct Hx as (m & e & -> & _). reflexivity. }
    rewrite E. split; [right|intros _]; now apply Hwiden.
  - destruct Hx as (m1 & e1 & -> & H1), Hy as (m2 & e2 & -> & H2).
    split; [right|intros _]; now apply Hff.
Qed.

Lemma Zdigits2_sqrt a :
  0 < a ->
  0 < Z.sqrt a /\
  (Zdigits2 a - 1) / 2 + 1 <= Zdigits2 (Z.sqrt a) <= (Zdigits2 a + 1) / 2.
Proof.
  intros Ha.
  pose proof (Zdigits2_bounds a Ha) as [Hlo Hhi].
  pose proof (Zdigits2_pos a Ha) as Hk.
  set (k := Zdigits2 a) in *.
  assert (Hj : 0 <= (k - 1) / 2) by (apply Z.div_pos; lia).
  assert (Hlow : 2 ^ ((k - 1) / 2) <= Z.sqrt a).
  { apply Z.sqrt_le_square; [lia | apply Z.pow_nonneg; lia |].
    rewrite <- Z.pow_add_r by lia.
    transitivity (2 ^ (k - 1)); [|assumption].
    apply Z.pow_le_mono_r; [lia|]. Z.div_mod_to_equations. lia. }
  assert (Hpos : 0 < Z.sqrt a).
  { pose proof (Z.pow_pos_nonneg 2 ((k - 1) / 2)). lia. }
  split; [exact Hpos|]. split.
  - now apply Zdigits2_ge_pow.
  - apply Zdigits2_lt_pow; [exact Hpos|].
    assert (Hi : 0 <= (k + 1) / 2) by (apply Z.div_pos; lia).
    apply Z.sqrt_lt_square; [lia | apply Z.pow_nonneg; lia |].
    rewrite <- Z.pow_add_r by lia.
    eapply Z.lt_le_trans; [exact Hhi|].
    apply Z.pow_le_mono_r; [lia|]. Z.div_mod_to_equations. lia.
Qed.

Lemma SFsqrt_mag lo hi x :
  finite_in false lo hi x ->
  -2042 <= lo -> hi <= 1900 ->
  finite_in false ((lo + 1) / 2) ((hi + 1) / 2 + 1) (SFsqrt prec emax x).
Proof.
  intros (m & e & -> & Hb) Hlo Hhi. cbn [SFsqrt].
  unfold SFsqrt_core_binary.
  set (d := Zdigits2 (Zpos m)).
  assert (Hd : d = Zpos (digits2_pos m)) by reflexivity.
  assert (Hnorm : fexp prec emax (Z.div2 (d + e + 1)) = Z.div2 (d + e + 1) - 53).
  { apply fexp_normal. rewrite Z.div2_div. Z.div_mod_to_equations. lia. }
  rewrite Hnorm.
  set (e' := Z.min (Z.div2 (d + e + 1) - 53) (Z.div2 e)).
  assert (He' : 2 * e' <= e /\ e' <= (d + e + 1) / 2 - 53).
  { subst e'. rewrite !Z.div2_div. Z.div_mod_to_equations. lia. }
  assert (Hm' : match e - 2 * e' with
                | Z0 => Zpos m
                | Zpos _ => Z.shiftl (Zpos m) (e - 2 * e')
                | Zneg _ => 0
                end = Zpos m * 2 ^ (e - 2 * e')).
  { destruct (e - 2 * e') as [|s|s] eqn:Hs.
    - cbn. lia.
    - rewrite Z.shiftl_mul_pow2 by lia. reflexivity.
    - lia. }
  rewrite Hm'.
  set (m' := Zpos m * 2 ^ (e - 2 * e')).
  assert (Hdm' : 0 < m' /\ Zdigits2 m' = d + (e - 2 * e')).
  { subst m'. split.
    - pose proof (Z.pow_pos_nonneg 2 (e - 2 * e')). nia.
    - apply Zdigits2_mul_pow2; lia. }
  destruct Hdm' as [Hm'pos Hdm'].
  pose proof (Z.sqrtrem_sqrt m') as Hq.
  destruct (Z.sqrtrem m') as [q r]. cbn [fst] in Hq. subst q.
  destruct (Zdigits2_sqrt m' Hm'pos) as (Hqpos & Hqd).
  rewrite Hdm' in Hqd.
  match goal with
  | |- context [binary_round_aux prec emax false (Z.sqrt m') e' ?l] =>
      destruct (binary_round_aux_mag false (Z.sqrt m') e' l)
        as (mr & er & Hr & Hbr)
  end.
  - exact Hqpos.
  - Z.div_mod_to_equations. lia.
  - exists mr, er. split; [exact Hr|]. Z.div_mod_to_equations. lia.
Qed.

Lemma Zdigits2_div a b :
  0 < a -> 0 < b -> Zdigits2 b < Zdigits2 a ->
  0 < a / b /\
  Zdigits2 a - Zdigits2 b <= Zdigits2 (a / b) <= Zdigits2 a - Zdigits2 b + 1.
Proof.
  intros Ha Hb Hlt.
  pose proof (Zdigits2_bounds a Ha) as [Ha1 Ha2].
  pose proof (Zdigits2_bounds b Hb) as [Hb1 Hb2].
  pose proof (Zdigits2_pos b Hb) as Hdb.
  set (da := Zdigits2 a) in *. set (db := Zdigits2 b) in *.
  assert (Hlow : 2 ^ (da - db - 1) <= a / b).
  { apply Z.div_le_lower_bound; [assumption|].
    assert (0 < 2 ^ (da - db - 1)) by (apply Z.pow_pos_nonneg; lia).
    assert (E : 2 ^ (da - 1) = 2 ^ (da - db - 1) * 2 ^ db).
    { rewrite <- Z.pow_add_r by lia. f_equal. lia. }
    nia. }
  assert (Hpos : 0 < a / b).
  { pose proof (Z.pow_pos_nonneg 2 (da - db - 1)). lia. }
  split; [exact Hpos|]. split.
  - assert (da - db - 1 + 1 <= Zdigits2 (a / b)); [|lia].
    apply Zdigits2_ge_pow; [lia|exact Hlow].
  - apply Zdigits2_lt_pow; [exact Hpos|].
    apply Z.div_lt_upper_bound; [assumption|].
    assert (0 < 2 ^ (da - db + 1)) by (apply Z.pow_pos_nonneg; lia).
    assert (E : 2 ^ da = 2 ^ (db - 1) * 2 ^ (da - db + 1)).
    { rewrite <- Z.pow_add_r by lia. f_equal. lia. }
    nia.
Qed.

Lemma SFdiv_mag lo1 hi1 lo2 hi2 x y :
  nonneg_in lo1 hi1 x -> finite_in false lo2 hi2 y ->
  -1021 <= lo1 - hi2 -> hi1 - lo2 + 1 <= 972 ->
  nonneg_in (lo1 - hi2) (hi1 - lo2 + 2) (SFdiv prec emax x y).
Proof.
  intros Hx (m2 & e2 & -> & H2) Hlo Hhi.
  destruct Hx as [->|(m1 & e1 & -> & H1)]; [now left|right].
  cbn [SFdiv]. unfold SFdiv_core_binary.
  set (d1 := Zdigits2 (Zpos m1)). set (d2 := Zdigits2 (Zpos m2)).
  assert (Hd1 : d1 = Zpos (digits2_pos m1)) by reflexivity.
  assert (Hd2 : d2 = Zpos (digits2_pos m2)) by reflexivity.
  rewrite fexp_normal by lia.
  set (e' := Z.min (d1 + e1 - (d2 + e2) - 53) (e1 - e2)).
  assert (Hm' : match e1 - e2 - e' with
                | Z0 => Zpos m1
                | Zpos _ => Z.shiftl (Zpos m1) (e1 - e2 - e')
                | Zneg _ => 0
                end = Zpos m1 * 2 ^ (e1 - e2 - e')).
  { destruct (e1 - e2 - e') as [|s|s] eqn:Hs.
    - cbn. lia.
    - rewrite Z.shiftl_mul_pow2 by lia. reflexivity.
    - lia. }
  rewrite Hm'.
  set (m' := Zpos m1 * 2 ^ (e1 - e2 - e')).
  assert (Hdm' : 0 < m' /\ Zdigits2 m' = d1 + (e1 - e2 - e')).
  { subst m'. split.
    - pose proof (Z.pow_pos_nonneg 2 (e1 - e2 - e')). nia.
    - apply Zdigits2_mul_pow2; lia. }
  destruct Hdm' as [Hm'pos Hdm'].
  assert (Hq : fst (Z.div_eucl m' (Zpos m2)) = m' / Zpos m2) by reflexivity.
  destruct (Z.div_eucl m' (Zpos m2)) as [q r]. cbn [fst] in Hq. subst q.
  destruct (Zdigits2_div m' (Zpos m2)) as (Hqpos & Hqd); [lia|lia|fold d2; lia|].
  fold d2 in Hqd. rewrite Hdm' in Hqd.
  match goal with
  | |- context [binary_round_aux prec emax ?s (m' / Zpos m2) e' ?l] =>
      destruct (binary_round_aux_mag s (m' / Zpos m2) e' l)
        as (mr & er & Hr & Hbr)
  end.
  - exact Hqpos.
  - lia.
  - exists mr, er. split; [exact Hr|]. lia.
Qed.

(** ** Binary64 arithmetic: signs *)

Lemma binary_round_aux_sign sx mx ex lx :
  sign_or_nan sx (binary_round_aux prec emax sx mx ex lx).
Proof.
  unfold binary_round_aux.
  destruct (shr_fexp prec emax mx ex lx) as [mrs1 e1].
  destruct (shr_fexp prec emax _ e1 loc_Exact) as [mrs2 e2].
  destruct (shr_m mrs2); [exact eq_refl| |exact I].
  destruct (e2 <=? emax - prec); exact eq_refl.
Qed.

Lemma SFmul_self_sign x : sign_or_nan false (SFmul prec emax x x).
Proof.
  destruct x as [s|s| |s m e]; cbn [SFmul sign_or_nan]; trivial;
    try (now destruct s).
  replace (xorb s s) with false by (now destruct s).
  apply binary_round_aux_sign.
Qed.

Lemma SFadd_sign x y :
  sign_or_nan false x -> sign_or_nan false y ->
  sign_or_nan false (SFadd prec emax x y).
Proof.
  destruct x as [s1|s1| |s1 m1 e1], y as [s2|s2| |s2 m2 e2];
    cbn [sign_or_nan]; intros H1 H2; subst; cbn [SFadd sign_or_nan];
    trivial.
  cbn [cond_Zopp].
  destruct (shl_align m1 e1 (Z.min e1 e2)) as [a ea].
  destruct (shl_align m2 e2 (Z.min e1 e2)) as [b eb].
  cbn [fst]. change (Zpos a + Zpos b) with (Zpos (a + b)).
  cbn [binary_normalize]. unfold binary_round.
  destruct (shl_align (a + b) _ _) as [mz ez].
  apply binary_round_aux_sign.
Qed.

Lemma SFsqrt_sign x :
  sign_or_nan false x -> sign_or_nan false (SFsqrt prec emax x).
Proof.
  destruct x as [s|s| |s m e]; cbn [sign_or_nan]; intros H; subst;
    cbn [SFsqrt sign_or_nan]; trivial.
  destruct (SFsqrt_core_binary prec emax (Zpos m) e) as [[mz ez] lz].
  apply binary_round_aux_sign.
Qed.

Lemma SFdiv_by_zero x :
  sign_or_nan false x ->
  inf_or_nan (SFdiv prec emax x (S754_zero false)).
Proof.
  unfold inf_or_nan.
  destruct x as [s|s| |s m e]; cbn [sign_or_nan]; intros H; subst;
    cbn; auto.
Qed.

Lemma SFadd_inf_or_nan_l x y :
  inf_or_nan x -> inf_or_nan (SFadd prec emax x y).
Proof.
  unfold inf_or_nan. intros [->| ->]; [|now right].
  destruct y as [s|[]| |s m e]; cbn; auto.
Qed.

Lemma SFadd_inf_or_nan_r x y :
  inf_or_nan y -> inf_or_nan (SFadd prec emax x y).
Proof.
  unfold inf_or_nan. intros [->| ->].
  - destruct x as [s|[]| |s m e]; cbn; auto.
  - destruct x as [s|s| |s m e]; cbn; auto.
Qed.

Lemma Prim2SF_two : Prim2SF 2%float = S754_finite false 4503599627370496 (-51).
Proof. reflexivity. Qed.

Lemma SFdiv_two_inf_or_nan x :
  inf_or_nan x -> inf_or_nan (SFdiv prec emax x (Prim2SF 2%float)).
Proof.
  rewrite Prim2SF_two. unfold inf_or_nan. intros [->| ->]; cbn; auto.
Qed.

Lemma SFltb_inf_or_nan x y : inf_or_nan x -> SFltb x y = false.
Proof.
  unfold inf_or_nan. intros [->| ->]; [|reflexivity].
  destruct y as [s|[]| |s m e]; reflexivity.
Qed.

(** The distance is never negative. *)
Lemma euclidean_sign u v : sign_or_nan false (Prim2SF (euclidean u v)).
Proof.
  unfold euclidean. rewrite sqrt_spec, add_spec, !mul_spec.
  apply SFsqrt_sign, SFadd_sign; apply SFmul_self_sign.
Qed.

Lemma euclidean_same p : euclidean p p = 0%float.
Proof. unfold euclidean. rewrite !Z.sub_diag. reflexivity. Qed.

(** An eye whose corners coincide has an EAR of [+infinity] or NaN. *)
Lemma calculate_ear_degenerate eye :
  lm0 eye = lm3 eye -> inf_or_nan (Prim2SF (calculate_ear eye)).
Proof.
  intros Hc. unfold calculate_ear, np_divide. rewrite Hc, euclidean_same.
  replace (2 * 0)%float with 0%float by reflexivity.
  rewrite div_spec, add_spec, Prim2SF_zero.
  apply SFdiv_by_zero, SFadd_sign; apply euclidean_sign.
Qed.

Lemma inf_or_nan_prim x :
  inf_or_nan (Prim2SF x) -> x = infinity \/ x = nan.
Proof.
  intros [H|H]; [left|right]; apply Prim2SF_inj; rewrite H; reflexivity.
Qed.

(** C4: for an eye whose corner points coincide, [calculate_ear] returns
    [+infinity] or NaN (the division is numpy's, it does not raise), which is
    below no threshold.  A face with such an eye therefore has an EAR that is
    below no threshold either, and [process_frame] treats it as a reading at
    or above the threshold: no onset, counter back to 0. *)
Theorem degenerate_eye_never_triggers :
  (forall eye,
     lm0 eye = lm3 eye ->
     (calculate_ear eye = infinity \/ calculate_ear eye = nan) /\
     forall thr, (calculate_ear eye <? thr)%float = false) /\
  (forall landmarks,
     (let '(left_eye, right_eye) := extract_eye_landmarks landmarks in
      lm0 left_eye = lm3 left_eye \/ lm0 right_eye = lm3 right_eye) ->
     (face_ear landmarks = infinity \/ face_ear landmarks = nan) /\
     forall cfg now d,
       check_drowsiness cfg now (face_ear landmarks) d =
         (set_is_drowsy false (set_eye_closed_frames 0 d), [])).
Proof.
  split.
  - intros eye Hc. pose proof (calculate_ear_degenerate eye Hc) as H.
    split; [now apply inf_or_nan_prim|].
    intros thr. rewrite ltb_spec. now apply SFltb_inf_or_nan.
  - intros landmarks Hc.
    assert (H : inf_or_nan (Prim2SF (face_ear landmarks))).
    { unfold face_ear, np_divide.
      destruct (extract_eye_landmarks landmarks) as [left_eye right_eye].
      rewrite div_spec, add_spec. apply SFdiv_two_inf_or_nan.
      destruct Hc as [Hc|Hc].
      - apply SFadd_inf_or_nan_l. now apply calculate_ear_degenerate.
      - apply SFadd_inf_or_nan_r. now apply calculate_ear_degenerate. }
    split; [now apply inf_or_nan_prim|].
    intros cfg now d. apply check_drowsiness_high.
    rewrite ltb_spec. now apply SFltb_inf_or_nan.
Qed.

Lemma degenerate_eye_never_triggers_witness :
  let eye := mkEye (5, 7) (6, 5) (8, 5) (5, 7) (8, 9) (6, 9) in
  let landmarks := shape_of eye (eye_of 3 3 10) in
  lm0 eye = lm3 eye /\
  (calculate_ear eye = infinity \/ calculate_ear eye = nan) /\
  (face_ear landmarks = infinity \/ face_ear landmarks = nan) /\
  check_drowsiness scenario_config 0%float (face_ear landmarks) (init 0%float) =
    (set_is_drowsy false (set_eye_closed_frames 0 (init 0%float)), []).
Proof.
  split; [reflexivity|]. split.
  - exact (proj1 (proj1 degenerate_eye_never_triggers
                    (mkEye (5, 7) (6, 5) (8, 5) (5, 7) (8, 9) (6, 9)) eq_refl)).
  - pose proof (proj2 degenerate_eye_never_triggers
                  (shape_of (mkEye (5, 7) (6, 5) (8, 5) (5, 7) (8, 9) (6, 9))
                            (eye_of 3 3 10))
                  (or_introl eq_refl)) as [H1 H2].
    split; [exact H1|apply H2].
Defined.

(** ** Binary64 arithmetic: the distance and the ratio *)

Lemma Zdigits2_abs_range z k :
  z <> 0 -> 0 <= k -> Z.abs z < 2 ^ k -> 1 <= Zdigits2 z <= k.
Proof.
  intros Hz Hk Hlt.
  assert (E : Zdigits2 z = Zdigits2 (Z.abs z)) by (destruct z; reflexivity).
  rewrite E. split.
  - pose proof (Zdigits2_pos (Z.abs z)). lia.
  - apply Zdigits2_lt_pow; lia.
Qed.

Lemma Prim2SF_of_pos p :
  Zpos p < 2 ^ 62 ->
  finite_in false (Zpos (digits2_pos p)) (Zpos (digits2_pos p) + 1)
            (Prim2SF (of_uint63 (Uint63.of_Z (Zpos p)))).
Proof.
  intros Hp. rewrite of_uint63_spec, Uint63.of_Z_spec.
  rewrite Z.mod_small by (change Uint63Axioms.wB with (2 ^ 63); lia).
  cbn [binary_normalize].
  pose proof (Zdigits2_abs_range (Zpos p) 62) as Hd. cbn [Zdigits2] in Hd.
  apply binary_round_mag. cbn [Z.abs] in Hd. lia.
Qed.

Lemma Prim2SF_float_of_int z :
  z <> 0 -> Z.abs z < 2 ^ 62 ->
  finite_in (z <? 0) (Zdigits2 z) (Zdigits2 z + 1) (Prim2SF (float_of_int z)).
Proof.
  intros Hz Hlt. destruct z as [|p|p]; [contradiction| |].
  - apply Prim2SF_of_pos. exact Hlt.
  - cbn [float_of_int Zdigits2]. rewrite opp_spec.
    destruct (Prim2SF_of_pos p Hlt) as (m & e & -> & Hb).
    exists m, e. split; [reflexivity|exact Hb].
Qed.

Lemma square_mag z :
  Z.abs z < 2 ^ 31 ->
  let x := float_of_int z in
  nonneg_in 1 65 (Prim2SF (x * x)) /\
  (z <> 0 -> finite_in false 1 65 (Prim2SF (x * x))).
Proof.
  intros Hlt.
  assert (Hnz : z <> 0 -> finite_in false 1 65
                            (Prim2SF (float_of_int z * float_of_int z))).
  { intros Hz. rewrite mul_spec.
    pose proof (Zdigits2_abs_range z 31 Hz ltac:(lia) Hlt) as Hd.
    assert (Hf : finite_in (z <? 0) 1 32 (Prim2SF (float_of_int z))).
    { destruct (Prim2SF_float_of_int z Hz) as (m & e & Hr & Hb).
      - eapply Z.lt_trans; [exact Hlt|]. reflexivity.
      - exists m, e. split; [exact Hr|lia]. }
    pose proof (SFmul_mag _ _ 1 32 1 32 _ _ Hf Hf ltac:(lia) ltac:(lia)) as H.
    rewrite xorb_nilpotent in H. exact H. }
  cbn zeta. split; [|exact Hnz].
  destruct (Z.eq_dec z 0) as [->|Hz]; [left; reflexivity|right; auto].
Qed.

Lemma euclidean_mag u v :
  in_range u -> in_range v ->
  nonneg_in 1 35 (Prim2SF (euclidean u v)) /\
  (u <> v -> finite_in false 1 35 (Prim2SF (euclidean u v))).
Proof.
  intros [Hu1 Hu2] [Hv1 Hv2]. unfold euclidean.
  set (dx := fst u - fst v). set (dy := snd u - snd v).
  assert (Hdx : Z.abs dx < 2 ^ 31) by (subst dx; lia).
  assert (Hdy : Z.abs dy < 2 ^ 31) by (subst dy; lia).
  destruct (square_mag dx Hdx) as [Hx Hx'].
  destruct (square_mag dy Hdy) as [Hy Hy'].
  cbn zeta in Hx, Hx', Hy, Hy'.
  rewrite sqrt_spec, add_spec. unfold SF64sqrt, SF64add.
  destruct (SFadd_mag 1 65 _ _ Hx Hy ltac:(lia) ltac:(lia)) as [Hs Hs'].
  assert (Hsq : forall s, finite_in false 1 67 s ->
                          finite_in false 1 35 (SFsqrt prec emax s)).
  { intros s Hfs.
    exact (SFsqrt_mag 1 67 s Hfs ltac:(lia) ltac:(lia)). }
  split.
  - destruct Hs as [Hs|Hs]; [rewrite Hs; now left|right; now apply Hsq].
  - intros Hne. apply Hsq, Hs'.
    assert (Hd : dx <> 0 \/ dy <> 0).
    { destruct (Z.eq_dec dx 0) as [Ex|Ex]; [|now left].
      destruct (Z.eq_dec dy 0) as [Ey|Ey]; [|now right].
      exfalso. apply Hne. destruct u, v. cbn in *. f_equal; lia. }
    destruct Hd as [Hd|Hd]; [left|right]; auto.
Qed.

Lemma calculate_ear_mag eye :
  eye_in_range eye -> lm0 eye <> lm3 eye ->
  nonneg_in (-37) 37 (Prim2SF (calculate_ear eye)).
Proof.
  intros (R0 & R1 & R2 & R3 & R4 & R5) Hne. unfold calculate_ear, np_divide.
  destruct (euclidean_mag (lm1 eye) (lm5 eye) R1 R5) as [HA _].
  destruct (euclidean_mag (lm2 eye) (lm4 eye) R2 R4) as [HB _].
  destruct (euclidean_mag (lm0 eye) (lm3 eye) R0 R3) as [_ HC].
  specialize (HC Hne).
  rewrite div_spec, add_spec, mul_spec, Prim2SF_two.
  unfold SF64div, SF64add, SF64mul.
  destruct (SFadd_mag 1 35 _ _ HA HB ltac:(lia) ltac:(lia)) as [Hs _].
  assert (H2 : finite_in false 2 2 (S754_finite false 4503599627370496 (-51))).
  { eexists _, _. split; [reflexivity|]. cbn. lia. }
  pose proof (SFmul_mag _ _ 2 2 1 35 _ _ H2 HC ltac:(lia) ltac:(lia)) as Hd.
  cbn [xorb] in Hd.
  exact (SFdiv_mag 1 37 2 38 _ _ Hs Hd ltac:(lia) ltac:(lia)).
Qed.

Lemma nonneg_in_finite lo hi x :
  nonneg_in lo hi (Prim2SF x) ->
  is_finite x = true /\ (0 <=? x)%float = true.
Proof.
  intros H. unfold is_finite, is_nan, is_infinity.
  rewrite !eqb_spec, leb_spec, abs_spec, Prim2SF_zero.
  replace (Prim2SF infinity) with (S754_infinity false) by reflexivity.
  destruct H as [->|(m & e & -> & _)]; [split; reflexivity|].
  cbn [SFabs]. unfold SFeqb, SFleb. cbn [SFcompare].
  rewrite Z.compare_refl, Pos.compare_cont_refl. split; reflexivity.
Qed.

(** ** Binary64 arithmetic: integers below 2^53 are exact *)

Lemma shr_1_even b :
  0 <= b ->
  shr_1 (Build_shr_record (b * 2) false false) = Build_shr_record b false false.
Proof.
  destruct b as [|q|q]; [reflexivity| |lia]. intros _.
  replace (Zpos q * 2) with (Zpos q~0) by lia. reflexivity.
Qed.

(** Shifting out zeros loses nothing. *)
Lemma iter_pos_shr_1_exact p a :
  0 <= a ->
  iter_pos shr_1 p (Build_shr_record (a * 2 ^ Zpos p) false false)
    = Build_shr_record a false false.
Proof.
  revert a. induction p as [p IH|p IH|]; intros a Ha; cbn [iter_pos].
  - assert (H0 : 0 < 2 ^ Zpos p) by (apply Z.pow_pos_nonneg; lia).
    replace (a * 2 ^ Zpos p~1) with (a * 2 ^ Zpos p * 2 ^ Zpos p * 2).
    + rewrite shr_1_even by nia. rewrite IH by nia. apply IH, Ha.
    + replace (Zpos p~1) with (Zpos p + Zpos p + 1) by lia.
      rewrite !Z.pow_add_r by lia. lia.
  - assert (H0 : 0 < 2 ^ Zpos p) by (apply Z.pow_pos_nonneg; lia).
    replace (a * 2 ^ Zpos p~0) with (a * 2 ^ Zpos p * 2 ^ Zpos p).
    + rewrite IH by nia. apply IH, Ha.
    + replace (Zpos p~0) with (Zpos p + Zpos p) by lia.
      rewrite !Z.pow_add_r by lia. lia.
  - apply shr_1_even, Ha.
Qed.

(** Rounding an integer [n] of at most 53 binary digits, given with [k]
    trailing zeros, to binary64: nothing is rounded off, the result is [n]
    with a mantissa of 53 digits. *)
Lemma binary_round_aux_integer s n k :
  0 < n -> Zdigits2 n <= 53 -> 53 - Zdigits2 n <= k ->
  binary_round_aux prec emax s (n * 2 ^ k) (- k) loc_Exact
    = S754_finite s (Z.to_pos (n * 2 ^ (53 - Zdigits2 n))) (Zdigits2 n - 53).
Proof.
  intros Hn Hd Hk.
  pose proof (Zdigits2_pos n Hn) as Hd1.
  set (d := Zdigits2 n) in *.
  assert (Hk0 : 0 <= k) by lia.
  assert (Hm : 0 < n * 2 ^ (53 - d)).
  { apply Z.mul_pos_pos; [exact Hn|apply Z.pow_pos_nonneg; lia]. }
  assert (Hdm : Zdigits2 (n * 2 ^ (53 - d)) = 53).
  { rewrite Zdigits2_mul_pow2 by lia. fold d. lia. }
  assert (Hfirst :
    shr_fexp prec emax (n * 2 ^ k) (- k) loc_Exact
      = (Build_shr_record (n * 2 ^ (53 - d)) false false, d - 53)).
  { unfold shr_fexp. cbn [shr_record_of_loc].
    rewrite Zdigits2_mul_pow2 by lia. fold d.
    replace (d + k + - k) with d by lia.
    rewrite fexp_normal by lia. unfold shr.
    destruct (d - 53 - - k) as [|p|p] eqn:Hj; [| |lia].
    - replace k with (53 - d) by lia. f_equal. lia.
    - replace (n * 2 ^ k) with (n * 2 ^ (53 - d) * 2 ^ Zpos p).
      + rewrite iter_pos_shr_1_exact by lia. f_equal. lia.
      + rewrite <- Z.mul_assoc, <- Z.pow_add_r by lia. do 2 f_equal. lia. }
  assert (Hsecond :
    shr_fexp prec emax (n * 2 ^ (53 - d)) (d - 53) loc_Exact
      = (Build_shr_record (n * 2 ^ (53 - d)) false false, d - 53)).
  { unfold shr_fexp. cbn [shr_record_of_loc]. rewrite Hdm.
    replace (53 + (d - 53)) with d by lia.
    rewrite fexp_normal by lia. rewrite Z.sub_diag. reflexivity. }
  unfold binary_round_aux. rewrite Hfirst.
  cbn [shr_m loc_of_shr_record round_nearest_even]. rewrite Hsecond.
  cbn [shr_m]. destruct (n * 2 ^ (53 - d)) as [|m|m] eqn:Em; try lia.
  cbn [Z.to_pos].
  replace (d - 53 <=? emax - prec) with true; [reflexivity|].
  symmetry. apply Z.leb_le. unfold emax, prec. lia.
Qed.

Lemma integer_float_pos n :
  0 < n ->
  integer_float n
    = S754_finite false (Z.to_pos (n * 2 ^ (53 - Zdigits2 n))) (Zdigits2 n - 53).
Proof.
  intros Hn. destruct n as [|p|p]; try lia. reflexivity.
Qed.

(** The binary64 of an integer below [2^53] is that integer. *)
Lemma Prim2SF_float_of_int_exact z :
  Z.abs z < 2 ^ 53 -> Prim2SF (float_of_int z) = integer_float z.
Proof.
  assert (Hpos : forall p, Zpos p < 2 ^ 53 ->
            Prim2SF (of_uint63 (Uint63.of_Z (Zpos p)))
              = S754_finite false
                  (Z.to_pos (Zpos p * 2 ^ (53 - Zdigits2 (Zpos p))))
                  (Zdigits2 (Zpos p) - 53)).
  { intros p Hp. rewrite of_uint63_spec, Uint63.of_Z_spec.
    rewrite Z.mod_small by (change Uint63Axioms.wB with (2 ^ 63); lia).
    cbn [binary_normalize]. unfold binary_round.
    assert (Hd : 1 <= Zdigits2 (Zpos p) <= 53).
    { split; [pose proof (Zdigits2_pos (Zpos p)); lia|].
      apply Zdigits2_lt_pow; lia. }
    pose proof (shl_align_spec p 0
                  (fexp prec emax (Zpos (digits2_pos p) + 0))) as Hs.
    destruct (shl_align p 0 _) as [mz ez].
    change (Zpos (digits2_pos p)) with (Zdigits2 (Zpos p)) in Hs.
    rewrite Z.add_0_r, fexp_normal in Hs by lia.
    destruct Hs as (_ & Hmz & Hez). specialize (Hez ltac:(lia)).
    subst ez. rewrite Hmz.
    replace (0 - (Zdigits2 (Zpos p) - 53)) with (53 - Zdigits2 (Zpos p)) by lia.
    replace (Zdigits2 (Zpos p) - 53) with (- (53 - Zdigits2 (Zpos p))) at 1 by lia.
    rewrite binary_round_aux_integer by lia. reflexivity. }
  intros Hz. destruct z as [|p|p].
  - reflexivity.
  - cbn [float_of_int]. rewrite Hpos by exact Hz. reflexivity.
  - cbn [float_of_int]. rewrite opp_spec, Hpos by exact Hz. reflexivity.
Qed.

(** The square of an integer below [2^26] is computed exactly. *)
Lemma SFmul_square_exact a :
  Z.abs a < 2 ^ 26 ->
  SFmul prec emax (integer_float a) (integer_float a) = integer_float (a * a).
Proof.
  intros Ha. destruct (Z.eq_dec a 0) as [->|Hnz]; [reflexivity|].
  assert (Hsq : 0 < a * a) by nia.
  assert (Hlt : a * a < 2 ^ 52).
  { change (2 ^ 52) with (2 ^ 26 * 2 ^ 26). nia. }
  set (b := Z.abs a).
  assert (Hb : 0 < b) by (subst b; lia).
  assert (Hbb : a * a = b * b) by (subst b; nia).
  assert (Hdb : Zdigits2 a = Zdigits2 b) by (subst b; now destruct a).
  assert (Hd : 1 <= Zdigits2 b <= 26).
  { split; [pose proof (Zdigits2_pos b Hb); lia|].
    apply Zdigits2_lt_pow; subst b; lia. }
  pose proof (Zdigits2_mul b b Hb Hb) as Hdd.
  assert (HD : Zdigits2 (b * b) <= 53).
  { etransitivity; [|apply (Zdigits2_lt_pow (b * b) 53); lia]. lia. }
  assert (Hm : 0 < b * 2 ^ (53 - Zdigits2 b)).
  { apply Z.mul_pos_pos; [exact Hb|apply Z.pow_pos_nonneg; lia]. }
  rewrite (integer_float_pos (a * a) Hsq), Hbb.
  assert (Hia : integer_float a
                = S754_finite (a <? 0) (Z.to_pos (b * 2 ^ (53 - Zdigits2 b)))
                    (Zdigits2 b - 53)).
  { subst b. rewrite <- Hdb. destruct a; [contradiction| |]; reflexivity. }
  rewrite Hia. cbn [SFmul]. rewrite xorb_nilpotent.
  rewrite <- (binary_round_aux_integer false (b * b)
                (106 - Zdigits2 b - Zdigits2 b)) by lia.
  f_equal; [|lia].
  rewrite Pos2Z.inj_mul, Z2Pos.id by exact Hm.
  replace (106 - Zdigits2 b - Zdigits2 b)
    with ((53 - Zdigits2 b) + (53 - Zdigits2 b)) by lia.
  rewrite Z.pow_add_r by lia. lia.
Qed.

(** The sum of two non-negative integers is computed exactly when it is
    below [2^53]. *)
Lemma SFadd_integer_exact m n :
  0 <= m -> 0 <= n -> m + n < 2 ^ 53 ->
  SFadd prec emax (integer_float m) (integer_float n) = integer_float (m + n).
Proof.
  intros Hm Hn Hlt.
  destruct (Z.eq_dec m 0) as [->|Hm0].
  { cbn [Z.add]. destruct n; try lia; reflexivity. }
  destruct (Z.eq_dec n 0) as [->|Hn0].
  { rewrite Z.add_0_r. destruct m; try lia; reflexivity. }
  assert (Hmp : 0 < m) by lia. assert (Hnp : 0 < n) by lia.
  pose proof (Zdigits2_pos m Hmp) as Hdm.
  pose proof (Zdigits2_pos n Hnp) as Hdn.
  pose proof (Zdigits2_add m n Hmp Hnp) as Hds.
  assert (HD : Zdigits2 (m + n) <= 53) by (apply Zdigits2_lt_pow; lia).
  set (dm := Zdigits2 m) in *. set (dn := Zdigits2 n) in *.
  assert (Hpm : 0 < m * 2 ^ (53 - dm)).
  { apply Z.mul_pos_pos; [exact Hmp|apply Z.pow_pos_nonneg; lia]. }
  assert (Hpn : 0 < n * 2 ^ (53 - dn)).
  { apply Z.mul_pos_pos; [exact Hnp|apply Z.pow_pos_nonneg; lia]. }
  rewrite (integer_float_pos m Hmp), (integer_float_pos n Hnp),
    (integer_float_pos (m + n)) by lia.
  fold dm dn. cbn [SFadd cond_Zopp].
  set (ez := Z.min (dm - 53) (dn - 53)).
  pose proof (shl_align_spec (Z.to_pos (m * 2 ^ (53 - dm))) (dm - 53) ez) as H1.
  pose proof (shl_align_spec (Z.to_pos (n * 2 ^ (53 - dn))) (dn - 53) ez) as H2.
  destruct (shl_align (Z.to_pos (m * 2 ^ (53 - dm))) (dm - 53) ez) as [m1 e1].
  destruct (shl_align (Z.to_pos (n * 2 ^ (53 - dn))) (dn - 53) ez) as [m2 e2].
  destruct H1 as (_ & H1 & E1). destruct H2 as (_ & H2 & E2).
  specialize (E1 ltac:(subst ez; lia)). specialize (E2 ltac:(subst ez; lia)).
  subst e1 e2. rewrite Z2Pos.id in H1, H2 by assumption.
  cbn [fst].
  assert (Hsum : Zpos m1 + Zpos m2 = (m + n) * 2 ^ (- ez)).
  { rewrite H1, H2, <- !Z.mul_assoc, <- !Z.pow_add_r by (subst ez; lia).
    replace (53 - dm + (dm - 53 - ez)) with (- ez) by lia.
    replace (53 - dn + (dn - 53 - ez)) with (- ez) by lia. lia. }
  change (Zpos m1 + Zpos m2) with (Zpos (m1 + m2)) in *.
  cbn [binary_normalize]. unfold binary_round.
  pose proof (shl_align_spec (m1 + m2) ez
                (fexp prec emax (Zpos (digits2_pos (m1 + m2)) + ez))) as H3.
  assert (Hdig : Zpos (digits2_pos (m1 + m2)) = Zdigits2 (m + n) + - ez).
  { change (Zpos (digits2_pos (m1 + m2))) with (Zdigits2 (Zpos (m1 + m2))).
    rewrite Hsum. apply Zdigits2_mul_pow2; subst ez; lia. }
  rewrite Hdig in H3 |- *.
  replace (Zdigits2 (m + n) + - ez + ez) with (Zdigits2 (m + n)) in H3 |- * by lia.
  rewrite fexp_normal in H3 |- * by lia.
  assert (Hnoshift :
    shl_align (m1 + m2) ez (Zdigits2 (m + n) - 53) = (Pos.add m1 m2, ez)).
  { unfold shl_align.
    destruct (Zdigits2 (m + n) - 53 - ez) eqn:E; try reflexivity.
    subst ez. lia. }
  rewrite Hnoshift, Hsum.
  replace ez with (- - ez) at 2 by lia.
  apply binary_round_aux_integer; subst ez; lia.
Qed.

(** Within the pixel range the distance computed by the code is the
    Euclidean distance of the specification: no product and no sum is
    rounded, only the square root is. *)
Lemma euclidean_exact u v :
  in_range u -> in_range v -> euclidean u v = euclidean_distance u v.
Proof.
  intros [Hu1 Hu2] [Hv1 Hv2]. unfold euclidean, euclidean_distance.
  set (dx := fst u - fst v). set (dy := snd u - snd v).
  assert (Hdx : Z.abs dx < 2 ^ 26) by (subst dx; lia).
  assert (Hdy : Z.abs dy < 2 ^ 26) by (subst dy; lia).
  assert (Hxx : 0 <= dx * dx < 2 ^ 52).
  { change (2 ^ 52) with (2 ^ 26 * 2 ^ 26). nia. }
  assert (Hyy : 0 <= dy * dy < 2 ^ 52).
  { change (2 ^ 52) with (2 ^ 26 * 2 ^ 26). nia. }
  f_equal. apply Prim2SF_inj.
  rewrite add_spec, !mul_spec. unfold SF64add, SF64mul.
  rewrite !Prim2SF_float_of_int_exact by lia.
  rewrite !SFmul_square_exact by assumption.
  apply SFadd_integer_exact; lia.
Qed.

(** C6: for an eye with pixel coordinates whose corner points differ,
    [calculate_ear] returns [(A + B) / (2 C)], where [A], [B] and [C] are
    the Euclidean distances between the points 1 and 5, 2 and 4, 0 and 3,
    each the correctly rounded square root of the exact sum of squares, and
    the sum, the product and the quotient are those of binary64.  The value
    is finite and not negative, and [C] is not zero.  The function reads
    its argument only. *)
Theorem calculate_ear_finite_nonneg p0 p1 p2 p3 p4 p5 :
  eye_in_range (mkEye p0 p1 p2 p3 p4 p5) ->
  p0 <> p3 ->
  let A := euclidean_distance p1 p5 in
  let B := euclidean_distance p2 p4 in
  let C := euclidean_distance p0 p3 in
  calculate_ear (mkEye p0 p1 p2 p3 p4 p5) = ((A + B) / (2 * C))%float /\
  is_finite (calculate_ear (mkEye p0 p1 p2 p3 p4 p5)) = true /\
  (0 <=? calculate_ear (mkEye p0 p1 p2 p3 p4 p5))%float = true /\
  (C =? 0)%float = false.
Proof.
  intros Hr Hne. cbn zeta.
  pose proof (calculate_ear_mag (mkEye p0 p1 p2 p3 p4 p5) Hr Hne) as H.
  apply nonneg_in_finite in H. destruct H as [H1 H2].
  destruct Hr as (R0 & R1 & R2 & R3 & R4 & R5). cbn in R0, R1, R2, R3, R4, R5.
  split.
  - unfold calculate_ear, np_divide.
    cbn [lm0 lm1 lm2 lm3 lm4 lm5].
    now rewrite !euclidean_exact by assumption.
  - split; [exact H1|]. split; [exact H2|].
    destruct (euclidean_mag p0 p3 R0 R3) as [_ HC].
    destruct (HC Hne) as (m & e & HC' & _).
    rewrite (euclidean_exact p0 p3 R0 R3) in HC'.
    rewrite eqb_spec, HC', Prim2SF_zero. reflexivity.
Qed.

Lemma calculate_ear_finite_nonneg_witness :
  eye_in_range (eye_of 4 5 25) /\
  lm0 (eye_of 4 5 25) <> lm3 (eye_of 4 5 25) /\
  calculate_ear (eye_of 4 5 25) = ((4 + 5) / (2 * 25))%float /\
  is_finite (calculate_ear (eye_of 4 5 25)) = true /\
  (0 <=? calculate_ear (eye_of 4 5 25))%float = true.
Proof.
  assert (Hr : eye_in_range (eye_of 4 5 25)).
  { unfold eye_in_range, in_range. cbn. lia. }
  assert (Hne : (0, 0) <> (25, 0)) by discriminate.
  split; [exact Hr|]. split; [exact Hne|].
  pose proof (calculate_ear_finite_nonneg
                (0, 0) (1, 0) (2, 0) (25, 0) (2, 5) (1, 4) Hr Hne) as H.
  cbn zeta in H. destruct H as (H0 & H1 & H2 & _).
  split; [exact H0|]. split; assumption.
Defined.

(** * Further properties *)

Lemma check_drowsiness_running cfg now ear d :
  running (fst (check_drowsiness cfg now ear d)) = running d.
Proof.
  unfold check_drowsiness.
  destruct (ear <? EAR_THRESHOLD cfg)%float; [|reflexivity].
  destruct (_ <=? _); [|reflexivity].
  destruct (negb _); [|reflexivity].
  match goal with
  | |- context [handle_drowsiness_detection cfg now ?x] =>
      pose proof (handle_frame_state cfg now x) as Hs;
      destruct (handle_drowsiness_detection cfg now x) as [d4 out]
  end.
  cbn in *. tauto.
Qed.

Lemma check_faces_running cfg now ears d :
  running (fst (check_faces cfg now ears d)) = running d.
Proof.
  revert d. induction ears as [|e ears IH]; intros d; cbn; [reflexivity|].
  pose proof (check_drowsiness_running cfg now e d) as H1.
  destruct (check_drowsiness cfg now e d) as [d1 out1].
  specialize (IH d1).
  destruct (check_faces cfg now ears d1) as [d2 out2].
  cbn in *. congruence.
Qed.

(** ** Leaving the detection loop *)

(** X1: once [stop_detection] has been called, the next pass of the loop
    reads and processes no frame: it leaves the loop with [cleanup] only and
    the detector as it was, and every later pass does nothing. *)
Theorem stop_ends_loop_within_one_iteration cfg s it :
  looping s = true ->
  let s1 := api_stop cfg s in
  let '(s2, out) := loop_iteration cfg it s1 in
  out = [Cleanup] /\
  det s2 = det s1 /\
  looping s2 = false /\
  cap_open s2 = false /\
  forall it', loop_iteration cfg it' s2 = (s2, []).
Proof.
  intros Hl. unfold api_stop, loop_iteration. cbn. rewrite Hl. cbn.
  repeat split.
Qed.

Lemma stop_ends_loop_within_one_iteration_witness :
  let s := mkSession (set_running true (init 0%float)) true true in
  let it := mkIteration true (mkFrame [face_020] 1%float) 0 in
  looping s = true /\
  fst (loop_iteration scenario_config it (api_stop scenario_config s))
    = mkSession (init 0%float) false false.
Proof.
  split; [reflexivity|].
  pose proof (stop_ends_loop_within_one_iteration scenario_config
                (mkSession (set_running true (init 0%float)) true true)
                (mkIteration true (mkFrame [face_020] 1%float) 0) eq_refl) as H.
  cbn zeta in H.
  destruct (loop_iteration _ _ _) as [s2 out].
  destruct H as (_ & Hd & Hl & Hc & _). cbn [fst].
  destruct s2 as [d c l]. cbn in *. now subst.
Defined.

(** X2: a failed read, or the key [q], ends the loop and leaves [running]
    true; [/api/start] then answers that detection is already running and
    starts nothing, until [/api/stop] has been called. *)
Theorem ended_loop_blocks_restart cfg s it :
  looping s = true -> running (det s) = true ->
  ret it = false \/ Z.land (key it) 255 = ord_q ->
  let s1 := fst (loop_iteration cfg it s) in
  looping s1 = false /\
  running (det s1) = true /\
  (forall camera_ok, api_start cfg camera_ok s1 = (s1, false)) /\
  (let '(s2, started) := api_start cfg true (api_stop cfg s1) in
   started = true /\ looping s2 = true /\ running (det s2) = true).
Proof.
  intros Hl Hr Hexit. cbn zeta.
  assert (H : looping (fst (loop_iteration cfg it s)) = false /\
              running (det (fst (loop_iteration cfg it s))) = true).
  { unfold loop_iteration. rewrite Hl, Hr. cbn [negb].
    destruct (ret it) eqn:Hret; cbn [negb]; [|now split].
    destruct Hexit as [Hexit|Hexit]; [discriminate|].
    unfold process_frame.
    pose proof (check_faces_running cfg (clock (frame it))
                  (map face_ear (faces (frame it)))
                  (set_total_frames (total_frames (det s) + 1) (det s))) as Hk.
    destruct (check_faces _ _ _ _) as [d2 out]. cbn [fst] in Hk.
    rewrite Hexit, Z.eqb_refl. cbn. split; [reflexivity|].
    rewrite Hk. exact Hr. }
  destruct H as [H1 H2].
  split; [exact H1|]. split; [exact H2|]. split.
  - intros ok. unfold api_start. now rewrite H2.
  - unfold api_start, api_stop. cbn. rewrite H1. cbn. repeat split.
Qed.

Lemma ended_loop_blocks_restart_witness :
  let s := mkSession (set_running true (init 0%float)) true true in
  let it := mkIteration false (mkFrame [] 1%float) 0 in
  (looping s = true /\ running (det s) = true /\ ret it = false) /\
  forall camera_ok,
    api_start scenario_config camera_ok
      (fst (loop_iteration scenario_config it s))
    = (fst (loop_iteration scenario_config it s), false).
Proof.
  split; [repeat split|].
  exact (proj1 (proj2 (proj2
           (ended_loop_blocks_restart scenario_config
              (mkSession (set_running true (init 0%float)) true true)
              (mkIteration false (mkFrame [] 1%float) 0)
              eq_refl eq_refl (or_introl eq_refl))))).
Defined.

(** ** Opening the camera *)

(** X3: [initialize_camera] succeeds exactly when one of the devices 0 to
    3 opens; the capture it keeps is then the one with the lowest such
    index.  When none opens it returns [False] (nothing is raised) and is
    left with the unopened capture of device 3. *)
Theorem initialize_camera_lowest_index opened :
  let '(cap, ok) := initialize_camera opened in
  (ok = true <-> exists i, 0 <= i <= 3 /\ opened i = true) /\
  (ok = true ->
   opened cap = true /\ 0 <= cap <= 3 /\
   forall j, 0 <= j < cap -> opened j = false) /\
  (ok = false -> cap = 3).
Proof.
  unfold initialize_camera. cbn [try_cameras].
  assert (Hcases : forall j, 0 <= j <= 3 -> j = 0 \/ j = 1 \/ j = 2 \/ j = 3)
    by (intros; lia).
  assert (Hnone : opened 0 = false -> opened 1 = false ->
                  opened 2 = false -> opened 3 = false ->
                  ~ exists i, 0 <= i <= 3 /\ opened i = true).
  { intros H0 H1 H2 H3 (i & Hi & Ho).
    destruct (Hcases i Hi) as [E | [E | [E | E]]]; subst i; congruence. }
  assert (Hbelow : forall cap,
             0 <= cap <= 3 ->
             (0 < cap -> opened 0 = false) ->
             (1 < cap -> opened 1 = false) ->
             (2 < cap -> opened 2 = false) ->
             forall j, 0 <= j < cap -> opened j = false).
  { intros cap Hc B0 B1 B2 j Hj.
    assert (E : j = 0 \/ j = 1 \/ j = 2) by lia.
    destruct E as [E | [E | E]]; subst j; [apply B0|apply B1|apply B2]; lia. }
  destruct (opened 0) eqn:H0; [|destruct (opened 1) eqn:H1;
    [|destruct (opened 2) eqn:H2; [|destruct (opened 3) eqn:H3]]].
  - split; [split; [intros _; exists 0; split; [lia|assumption]|reflexivity]|].
    split; [intros _|discriminate].
    split; [assumption|]. split; [lia|]. intros j Hj. lia.
  - split; [split; [intros _; exists 1; split; [lia|assumption]|reflexivity]|].
    split; [intros _|discriminate].
    split; [assumption|]. split; [lia|].
    apply Hbelow; try lia; intros; assumption.
  - split; [split; [intros _; exists 2; split; [lia|assumption]|reflexivity]|].
    split; [intros _|discriminate].
    split; [assumption|]. split; [lia|].
    apply Hbelow; try lia; intros; assumption.
  - split; [split; [intros _; exists 3; split; [lia|assumption]|reflexivity]|].
    split; [intros _|discriminate].
    split; [assumption|]. split; [lia|].
    apply Hbelow; try lia; intros; assumption.
  - split; [split; [discriminate|intros H; exfalso; now apply Hnone]|].
    split; [discriminate|reflexivity].
Qed.

(** ** The debounce of the state machine *)

(** From a state with the counter at 0, after frames with one face each the
    counter is the length of the run of below-threshold frames that ends the
    sequence. *)
Lemma counter_is_trailing_run cfg d0 frames :
  eye_closed_frames d0 = 0 ->
  Forall single_face frames ->
  exists before run,
    frames = before ++ run /\
    Forall (frame_below cfg) run /\
    eye_closed_frames (fst (process_frames cfg frames d0))
      = Z.of_nat (length run).
Proof.
  intros H0. induction frames as [|fr frames IH] using rev_ind; intros Hs.
  - exists [], []. cbn. repeat split; [constructor|assumption].
  - apply Forall_app in Hs. destruct Hs as [Hs Hfr].
    destruct (IH Hs) as (before & run & -> & Hrun & Hc).
    inversion Hfr as [|? ? (f & Hf) _]; subst.
    rewrite process_frames_app.
    destruct (process_frames cfg (before ++ run) d0) as [d1 outs1].
    cbn [fst] in Hc. cbn [process_frames].
    pose proof (process_frame_single cfg fr (face_ear f) d1) as H1.
    rewrite Hf in H1. specialize (H1 eq_refl).
    destruct (process_frame cfg fr d1) as [d2 out2]. cbn [fst].
    destruct (face_ear f <? EAR_THRESHOLD cfg)%float eqn:Hlow.
    + exists before, (run ++ [fr]). rewrite app_assoc. split; [reflexivity|].
      split.
      * apply Forall_app. split; [assumption|]. constructor; [|constructor].
        unfold frame_below. rewrite Hf. cbn [forallb]. unfold below.
        now rewrite Hlow.
      * cbn zeta in H1. destruct H1 as (H1 & _).
        rewrite H1, Hc, length_app. cbn. lia.
    + exists (before ++ run ++ [fr]), []. rewrite app_nil_r, app_assoc.
      split; [reflexivity|]. split; [constructor|].
      destruct H1 as (H1 & _). rewrite H1. reflexivity.
Qed.

(** X4: no onset without a full run.  From a state with the counter at 0
    and a frame threshold of at least 1, when frames with one face each are
    processed and one of them emits the onset, that frame ends a run of
    [DROWSINESS_FRAMES_THRESHOLD] consecutive frames whose faces are all
    below the EAR threshold. *)
Theorem onset_needs_full_run cfg d0 frames fr :
  1 <= DROWSINESS_FRAMES_THRESHOLD cfg ->
  eye_closed_frames d0 = 0 ->
  Forall single_face (frames ++ [fr]) ->
  0 < onsets (snd (process_frame cfg fr (fst (process_frames cfg frames d0)))) ->
  exists before run,
    frames ++ [fr] = before ++ run /\
    Z.of_nat (length run) = DROWSINESS_FRAMES_THRESHOLD cfg /\
    Forall (frame_below cfg) run.
Proof.
  intros HT H0 Hs Hon.
  apply Forall_app in Hs. destruct Hs as [Hs Hfr].
  destruct (counter_is_trailing_run cfg d0 frames H0 Hs)
    as (before & run & -> & Hrun & Hc).
  inversion Hfr as [|? ? (f & Hf) _]; subst.
  set (d1 := fst (process_frames cfg (before ++ run) d0)) in *.
  pose proof (process_frame_single cfg fr (face_ear f) d1) as H1.
  rewrite Hf in H1. specialize (H1 eq_refl).
  destruct (process_frame cfg fr d1) as [d2 out2]. cbn [snd] in Hon.
  destruct (face_ear f <? EAR_THRESHOLD cfg)%float eqn:Hlow.
  - cbn zeta in H1. destruct H1 as (_ & _ & Ho).
    destruct (negb (is_drowsy d1) &&
              (DROWSINESS_FRAMES_THRESHOLD cfg <=? eye_closed_frames d1 + 1))
      eqn:Hfire; [|lia].
    apply andb_true_iff in Hfire. destruct Hfire as [_ Hfire].
    apply Z.leb_le in Hfire. rewrite Hc in Hfire.
    set (T := DROWSINESS_FRAMES_THRESHOLD cfg) in *.
    set (full := run ++ [fr]).
    assert (Hfull : Forall (frame_below cfg) full).
    { apply Forall_app. split; [assumption|]. constructor; [|constructor].
      unfold frame_below. rewrite Hf. cbn [forallb]. unfold below.
        now rewrite Hlow. }
    assert (Hlen : T <= Z.of_nat (length full)).
    { subst full. rewrite length_app. cbn. lia. }
    set (k := (length full - Z.to_nat T)%nat).
    exists (before ++ firstn k full), (skipn k full).
    split; [|split].
    + rewrite <- !app_assoc. f_equal.
      change (run ++ [fr]) with full. now rewrite firstn_skipn.
    + rewrite length_skipn. subst k. lia.
    + apply Forall_forall. intros x Hx.
      rewrite Forall_forall in Hfull. apply Hfull.
      rewrite <- (firstn_skipn k full). apply in_or_app. now right.
  - destruct H1 as (_ & _ & Ho). lia.
Qed.

Lemma onset_needs_full_run_witness :
  (1 <= DROWSINESS_FRAMES_THRESHOLD scenario_config /\
   eye_closed_frames (init 0%float) = 0 /\
   Forall single_face (firstn 3 scenario_frames ++ [nth 3 scenario_frames (mkFrame [] 0%float)]) /\
   0 < onsets (snd (process_frame scenario_config
                      (nth 3 scenario_frames (mkFrame [] 0%float))
                      (fst (process_frames scenario_config
                              (firstn 3 scenario_frames) (init 0%float)))))) /\
  exists before run,
    firstn 3 scenario_frames ++ [nth 3 scenario_frames (mkFrame [] 0%float)]
      = before ++ run /\
    Z.of_nat (length run) = DROWSINESS_FRAMES_THRESHOLD scenario_config /\
    Forall (frame_below scenario_config) run.
Proof.
  assert (H1 : 1 <= DROWSINESS_FRAMES_THRESHOLD scenario_config) by (cbn; lia).
  assert (H3 : Forall single_face
                 (firstn 3 scenario_frames ++
                  [nth 3 scenario_frames (mkFrame [] 0%float)])).
  { repeat constructor; eexists; reflexivity. }
  assert (H4 : 0 < onsets (snd (process_frame scenario_config
                      (nth 3 scenario_frames (mkFrame [] 0%float))
                      (fst (process_frames scenario_config
                              (firstn 3 scenario_frames) (init 0%float)))))).
  { reflexivity. }
  split; [repeat split; assumption|].
  exact (onset_needs_full_run scenario_config (init 0%float)
           (firstn 3 scenario_frames)
           (nth 3 scenario_frames (mkFrame [] 0%float)) H1 eq_refl H3 H4).
Defined.

(** ** The video feed and the loop on one detector *)

(** X5: with the loop running, frames with one face below the threshold
    advance [eye_closed_frames] by one each whether the loop or the video
    feed of the web interface takes them, while [total_frames] counts the
    frames of the loop only. *)
Theorem video_feed_frames_advance_counter cfg ops s :
  looping s = true -> running (det s) = true -> cap_open s = true ->
  Forall (low_frame_op cfg) ops ->
  let s' := fst (session_run cfg ops s) in
  eye_closed_frames (det s')
    = eye_closed_frames (det s) + Z.of_nat (length ops) /\
  total_frames (det s')
    = total_frames (det s)
      + Z.of_nat (length (filter is_loop_iteration ops)).
Proof.
  intros Hl Hr Hc Hops. revert s Hl Hr Hc.
  induction Hops as [|op ops Hop _ IH]; intros s Hl Hr Hc; cbn zeta.
  - cbn. lia.
  - cbn [session_run].
    assert (Hstep : let s1 := fst (session_step cfg op s) in
              looping s1 = true /\ running (det s1) = true /\
              cap_open s1 = true /\
              eye_closed_frames (det s1) = eye_closed_frames (det s) + 1 /\
              total_frames (det s1) =
                total_frames (det s)
                + (if is_loop_iteration op then 1 else 0)).
    { destruct op as [ok|it| |now|ok fr]; cbn [low_frame_op] in Hop;
        try contradiction.
      - destruct Hop as (Hret & Hkey & f & Hf & Hb).
        cbn [session_step is_loop_iteration]. unfold loop_iteration.
        rewrite Hl, Hr, Hret. cbn [negb].
        pose proof (process_frame_single cfg (frame it) (face_ear f)
                      (set_total_frames (total_frames (det s) + 1) (det s)))
          as H1.
        rewrite Hf in H1. specialize (H1 eq_refl).
        unfold below in Hb. rewrite Hb in H1.
        unfold process_frame in *.
        pose proof (check_faces_running cfg (clock (frame it))
                      (map face_ear (faces (frame it)))
                      (set_total_frames (total_frames (det s) + 1) (det s)))
          as Hk.
        pose proof (check_faces_detections cfg (clock (frame it))
                      (map face_ear (faces (frame it)))
                      (set_total_frames (total_frames (det s) + 1) (det s)))
          as Hd.
        destruct (check_faces _ _ _ _) as [d2 out].
        cbn zeta in H1. destruct H1 as (H1 & _). destruct Hd as (_ & Hd).
        cbn in Hk, Hd, H1.
        destruct (Z.eqb_spec (Z.land (key it) 255) ord_q); [contradiction|].
        destruct (Z.land (key it) 255 =? ord_s); cbn;
          repeat split; try assumption; congruence.
      - destruct Hop as (Hok & f & Hf & Hb). subst ok.
        cbn [session_step is_loop_iteration]. unfold generate_frame.
        rewrite Hc. cbn [andb].
        pose proof (process_frame_single cfg fr (face_ear f) (det s)) as H1.
        rewrite Hf in H1. specialize (H1 eq_refl).
        unfold below in Hb. rewrite Hb in H1.
        unfold process_frame in *.
        pose proof (check_faces_running cfg (clock fr)
                      (map face_ear (faces fr)) (det s)) as Hk.
        pose proof (check_faces_detections cfg (clock fr)
                      (map face_ear (faces fr)) (det s)) as Hd.
        destruct (check_faces _ _ _ _) as [d2 out].
        cbn zeta in H1. destruct H1 as (H1 & _). destruct Hd as (_ & Hd).
        cbn in Hk, Hd, H1. cbn.
        repeat split; try assumption; try congruence. lia. }
    destruct (session_step cfg op s) as [s1 out1]. cbn [fst] in Hstep.
    destruct Hstep as (Hl1 & Hr1 & Hc1 & He1 & Ht1).
    specialize (IH s1 Hl1 Hr1 Hc1). cbn zeta in IH.
    destruct (session_run cfg ops s1) as [s2 out2]. cbn [fst] in *.
    destruct IH as [IH1 IH2]. cbn [filter length].
    destruct (is_loop_iteration op); cbn [length]; lia.
Qed.

Lemma video_feed_frames_advance_counter_witness :
  let s := mkSession (set_running true (init 0%float)) true true in
  let fr := mkFrame [face_020] 1700000000%float in
  let ops := [LoopIteration (mkIteration true fr 255); VideoFeed true fr;
              VideoFeed true fr] in
  Forall (low_frame_op scenario_config) ops /\
  eye_closed_frames (det (fst (session_run scenario_config ops s))) = 0 + 3 /\
  total_frames (det (fst (session_run scenario_config ops s))) = 0 + 1.
Proof.
  assert (H : Forall (low_frame_op scenario_config)
                [LoopIteration
                   (mkIteration true (mkFrame [face_020] 1700000000%float) 255);
                 VideoFeed true (mkFrame [face_020] 1700000000%float);
                 VideoFeed true (mkFrame [face_020] 1700000000%float)]).
  { repeat constructor; try discriminate; exists face_020; split; reflexivity. }
  split; [exact H|].
  exact (video_feed_frames_advance_counter scenario_config _
           (mkSession (set_running true (init 0%float)) true true)
           eq_refl eq_refl eq_refl H).
Defined.

(** ** Downloading the landmark model *)

Lemma read_chunks_app chunks tail written downloaded :
  Forall nonempty chunks ->
  read_chunks (map Return chunks ++ tail) written downloaded =
    read_chunks tail (written ++ concat chunks)
                (downloaded + Z.of_nat (length (concat chunks))).
Proof.
  intros Hne. revert written downloaded.
  induction Hne as [|c chunks Hc _ IH]; intros written downloaded; cbn.
  - now rewrite app_nil_r, Z.add_0_r.
  - destruct c as [|b c]; [now elim Hc|].
    rewrite IH. rewrite length_app, <- app_assoc. f_equal. lia.
Qed.

(** X6: when the server delivers non-empty chunks and then the end of the
    stream, [download_file] returns [True] and the file holds exactly the
    chunks, in order, whatever it held before; what the stream would give
    after the first empty chunk is never read. *)
Theorem download_file_writes_what_it_reads w response chunks rest file :
  reaches_reads w response ->
  Forall nonempty chunks ->
  reads response = map Return chunks \/
  reads response = map Return chunks ++ Return [] :: rest ->
  download_file w file = (true, Some (concat chunks)) /\
  read_chunks (reads response) [] 0
    = (Return tt, concat chunks, Z.of_nat (length (concat chunks))).
Proof.
  intros (Hm & Hu & (n & Hn) & Ho) Hne Hreads.
  assert (Hloop : read_chunks (reads response) [] 0
                  = (Return tt, concat chunks,
                     Z.of_nat (length (concat chunks)))).
  { destruct Hreads as [-> | ->].
    - rewrite <- (app_nil_r (map Return chunks)).
      now rewrite read_chunks_app.
    - now rewrite read_chunks_app. }
  unfold download_file. rewrite Hm, Hu, Hn, Ho, Hloop. split; reflexivity.
Qed.

Lemma download_file_writes_what_it_reads_witness :
  let response := mkResponse (Return 8) [Return chunk_a; Return chunk_b] in
  reaches_reads (good_world [Return chunk_a; Return chunk_b]) response /\
  Forall nonempty [chunk_a; chunk_b] /\
  download_file (good_world [Return chunk_a; Return chunk_b]) (Some chunk_b)
    = (true, Some (chunk_a ++ chunk_b)).
Proof.
  assert (H1 : reaches_reads (good_world [Return chunk_a; Return chunk_b])
                 (mkResponse (Return 8) [Return chunk_a; Return chunk_b])).
  { repeat split. now exists 8. }
  assert (H2 : Forall nonempty [chunk_a; chunk_b]).
  { repeat constructor; discriminate. }
  split; [exact H1|]. split; [exact H2|].
  exact (proj1 (download_file_writes_what_it_reads _ _ [chunk_a; chunk_b] []
                  (Some chunk_b) H1 H2 (or_introl eq_refl))).
Defined.

(** A read that raises after some chunks were written. *)
Lemma download_file_read_failure w response chunks e rest file :
  reaches_reads w response ->
  Forall nonempty chunks ->
  reads response = map Return chunks ++ Raise e :: rest ->
  download_file w file = (false, Some (concat chunks)).
Proof.
  intros (Hm & Hu & (n & Hn) & Ho) Hne Hreads.
  unfold download_file. rewrite Hm, Hu, Hn, Ho, Hreads.
  now rewrite read_chunks_app.
Qed.

(** X7: [download_file] never raises.  It returns [False] when a call
    raises; if that happens before the destination is opened the file is
    left as it was, and if a read raises after some chunks were written the
    file is left holding those chunks only. *)
Theorem download_file_failure_leaves_partial_file :
  (forall w file,
     (exists e, dl_makedirs w = Raise e) \/
     (exists e, dl_makedirs w = Return tt /\ dl_urlopen w = Raise e) \/
     (exists e response,
        dl_makedirs w = Return tt /\ dl_urlopen w = Return response /\
        (content_length response = Raise e \/
         (exists n, content_length response = Return n) /\
         dl_open w = Raise e)) ->
     download_file w file = (false, file)) /\
  (forall w response chunks e rest file,
     reaches_reads w response ->
     Forall nonempty chunks ->
     reads response = map Return chunks ++ Raise e :: rest ->
     download_file w file = (false, Some (concat chunks))) /\
  (forall w file,
     fst (download_file w file) = true ->
     exists content, snd (download_file w file) = Some content).
Proof.
  repeat apply conj.
  - intros w file [(e & H)|[(e & H1 & H2)|(e & response & H1 & H2 & H3)]];
      unfold download_file.
    + now rewrite H.
    + now rewrite H1, H2.
    + rewrite H1, H2. destruct H3 as [H3|((n & H3) & H4)].
      * now rewrite H3.
      * now rewrite H3, H4.
  - intros w response chunks e rest file.
    apply download_file_read_failure.
  - intros w file. unfold download_file.
    destruct (dl_makedirs w); [|discriminate].
    destruct (dl_urlopen w) as [response|]; [|discriminate].
    destruct (content_length response); [|discriminate].
    destruct (dl_open w); [|discriminate].
    destruct (read_chunks (reads response) [] 0) as [[r written] downloaded].
    destruct r; [|discriminate]. intros _. now exists written.
Qed.

Lemma download_file_failure_leaves_partial_file_witness :
  let reads := [Return chunk_a; Raise (Exception "ConnectionResetError");
                Return chunk_b] in
  reaches_reads (good_world reads) (mkResponse (Return 8) reads) /\
  download_file (good_world reads) None = (false, Some chunk_a).
Proof.
  assert (H1 : reaches_reads
                 (good_world [Return chunk_a;
                              Raise (Exception "ConnectionResetError");
                              Return chunk_b])
                 (mkResponse (Return 8)
                    [Return chunk_a; Raise (Exception "ConnectionResetError");
                     Return chunk_b])).
  { repeat split. now exists 8. }
  split; [exact H1|].
  refine (proj1 (proj2 download_file_failure_leaves_partial_file)
            _ _ [chunk_a] (Exception "ConnectionResetError") [Return chunk_b]
            None H1 _ eq_refl).
  repeat constructor; discriminate.
Defined.

(** X8: [download_dlib_model] raises only when the model is missing and
    its directory cannot be created.  It returns [True] only with the file
    in place, which then either was there before (no download is made, no
    size is looked at) or is the download and has more than 1,000,000
    bytes; a download that completes with fewer bytes is removed again. *)
Theorem download_dlib_model_outcomes ensure_dir w file :
  let '(r, file1) := download_dlib_model ensure_dir w file in
  (forall e, r = Raise e -> file = None /\ ensure_dir = Raise e /\ file1 = None) /\
  (r = Return true ->
   exists content,
     file1 = Some content /\
     (file = Some content \/
      file = None /\ download_file w None = (true, Some content) /\
      1000000 < Z.of_nat (length content))) /\
  (r = Return false ->
   file = None /\
   (file1 = None \/ fst (download_file w None) = false)) /\
  (forall content,
     file = None -> ensure_dir = Return tt ->
     download_file w None = (true, Some content) ->
     Z.of_nat (length content) <= 1000000 ->
     r = Return false /\ file1 = None).
Proof.
  unfold download_dlib_model.
  destruct file as [content0|].
  - repeat apply conj; try discriminate.
    intros _. exists content0. auto.
  - destruct ensure_dir as [[]|e0].
    + destruct (download_file w None) as [ok file1] eqn:Hd.
      destruct ok; [destruct file1 as [content|];
        [destruct (Z.ltb_spec 1000000 (Z.of_nat (length content)))|]|].
      * repeat apply conj; try discriminate.
        -- intros _. exists content. split; [reflexivity|]. right. auto.
        -- intros c _ _ Hc Hle. injection Hc as Hc. subst c. lia.
      * repeat apply conj; try discriminate; auto.
      * repeat apply conj; try discriminate; auto;
          try (intros c _ _ Hc; discriminate Hc).
      * repeat apply conj; try discriminate; auto;
          try (intros c _ _ Hc; discriminate Hc).
    + repeat apply conj; try discriminate;
        try (intros c _ Hc; discriminate Hc).
      intros e He. injection He as He. subst e. auto.
Qed.

(** X9: a download that breaks off after its first chunks makes
    [download_dlib_model] return [False] and leaves the partial file; every
    later call finds that file, downloads nothing and returns [True],
    however short the file is. *)
Theorem partial_download_is_accepted_next_time w response chunks e rest :
  reaches_reads w response ->
  Forall nonempty chunks ->
  reads response = map Return chunks ++ Raise e :: rest ->
  download_dlib_model (Return tt) w None
    = (Return false, Some (concat chunks)) /\
  forall ensure_dir' w',
    download_dlib_model ensure_dir' w' (Some (concat chunks))
      = (Return true, Some (concat chunks)).
Proof.
  intros Hw Hne Hreads. split; [|reflexivity].
  unfold download_dlib_model.
  now rewrite (download_file_read_failure w response chunks e rest None
                 Hw Hne Hreads).
Qed.

Lemma partial_download_is_accepted_next_time_witness :
  let reads := [Return chunk_a; Raise (Exception "ConnectionResetError")] in
  reaches_reads (good_world reads) (mkResponse (Return 8) reads) /\
  download_dlib_model (Return tt) (good_world reads) None
    = (Return false, Some chunk_a) /\
  download_dlib_model (Return tt) (good_world [Return chunk_a; Return chunk_b])
                      (Some chunk_a)
    = (Return true, Some chunk_a).
Proof.
  assert (H1 : reaches_reads
                 (good_world [Return chunk_a;
                              Raise (Exception "ConnectionResetError")])
                 (mkResponse (Return 8)
                    [Return chunk_a; Raise (Exception "ConnectionResetError")])).
  { repeat split. now exists 8. }
  assert (H2 : Forall nonempty [chunk_a]).
  { repeat constructor; discriminate. }
  pose proof (partial_download_is_accepted_next_time _ _ [chunk_a]
                (Exception "ConnectionResetError") [] H1 H2 eq_refl) as [Ha Hb].
  split; [exact H1|]. split; [exact Ha|].
  exact (Hb (Return tt) (good_world [Return chunk_a; Return chunk_b])).
Defined.

Lemma download_dlib_model_outcomes_witness :
  download_dlib_model (Return tt) (good_world [Return chunk_a; Return chunk_b])
                      None
    = (Return false, None).
Proof.
  pose proof (download_dlib_model_outcomes (Return tt)
                (good_world [Return chunk_a; Return chunk_b]) None) as H.
  destruct (download_dlib_model _ _ _) as [r file1].
  destruct H as (_ & _ & _ & H).
  destruct (H (chunk_a ++ chunk_b) eq_refl eq_refl eq_refl) as [-> ->].
  - cbn. lia.
  - reflexivity.
Defined.

(** ** Removing old files *)

Lemma insert_by_mtime_perm x l : Permutation (x :: l) (insert_by_mtime x l).
Proof.
  induction l as [|y l IH]; cbn; [reflexivity|].
  destruct (mtime x <=? mtime y); [reflexivity|].
  rewrite perm_swap. now constructor.
Qed.

Lemma sort_by_mtime_perm l : Permutation l (sort_by_mtime l).
Proof.
  induction l as [|x l IH]; cbn; [constructor|].
  rewrite <- insert_by_mtime_perm. now constructor.
Qed.

Lemma insert_by_mtime_sorted x l :
  StronglySorted older_or_same l ->
  StronglySorted older_or_same (insert_by_mtime x l).
Proof.
  induction 1 as [|y l Hs IH Hy]; cbn.
  - repeat constructor.
  - destruct (Z.leb_spec (mtime x) (mtime y)).
    + constructor; [now constructor|].
      constructor; [assumption|].
      eapply Forall_impl; [|exact Hy].
      unfold older_or_same. intros; lia.
    + constructor; [assumption|].
      eapply Permutation_Forall; [apply insert_by_mtime_perm|].
      constructor; [unfold older_or_same; lia|assumption].
Qed.

Lemma sort_by_mtime_sorted l : StronglySorted older_or_same (sort_by_mtime l).
Proof.
  induction l as [|x l IH]; cbn; [constructor|].
  now apply insert_by_mtime_sorted.
Qed.

Lemma sorted_app_order l1 l2 :
  StronglySorted older_or_same (l1 ++ l2) ->
  forall a b, In a l1 -> In b l2 -> older_or_same a b.
Proof.
  induction l1 as [|x l1 IH]; cbn; intros Hs a b Ha Hb; [contradiction|].
  inversion Hs as [|? ? Hs' Hx]; subst.
  destruct Ha as [<-|Ha].
  - rewrite Forall_forall in Hx. apply Hx, in_or_app. now right.
  - now apply IH.
Qed.

(** X10: [cleanup_old_files] removes nothing when the directory is
    missing or holds at most [max_files] matching files, and also when
    [max_files] is 0, however many files there are: the slice
    [files[:-0]] is empty. *)
Theorem cleanup_old_files_removes_nothing files removable :
  (forall max_files,
     cleanup_old_files false files removable max_files = []) /\
  (forall max_files,
     Z.of_nat (length files) <= max_files ->
     cleanup_old_files true files removable max_files = []) /\
  cleanup_old_files true files removable 0 = [].
Proof.
  repeat apply conj.
  - reflexivity.
  - intros max_files Hle. unfold cleanup_old_files. cbn [negb].
    apply Z.leb_le in Hle. now rewrite Hle.
  - unfold cleanup_old_files. cbn [negb].
    destruct (Z.of_nat (length files) <=? 0); reflexivity.
Qed.

(** X11: with more than [max_files] matching files and [max_files]
    positive, [cleanup_old_files] splits the files into those it tries to
    remove and exactly [max_files] it keeps, none of the former newer than
    any of the latter; it removes each of the former for which [os.remove]
    succeeds, one failure not stopping the rest. *)
Theorem cleanup_old_files_keeps_newest files removable max_files :
  0 < max_files < Z.of_nat (length files) ->
  exists gone kept,
    Permutation files (gone ++ kept) /\
    Z.of_nat (length kept) = max_files /\
    (forall a b, In a gone -> In b kept -> mtime a <= mtime b) /\
    cleanup_old_files true files removable max_files
      = map path (filter (fun f => removable (path f)) gone).
Proof.
  intros [Hpos Hlt].
  set (sorted := sort_by_mtime files).
  set (k := Z.to_nat (Z.of_nat (length sorted) - max_files)).
  assert (Hlen : length sorted = length files).
  { symmetry. apply Permutation_length, sort_by_mtime_perm. }
  exists (firstn k sorted), (skipn k sorted).
  repeat apply conj.
  - rewrite firstn_skipn. apply sort_by_mtime_perm.
  - rewrite length_skipn. subst k. lia.
  - apply sorted_app_order. rewrite firstn_skipn.
    apply sort_by_mtime_sorted.
  - unfold cleanup_old_files, slice_to_minus. cbn [negb].
    destruct (Z.leb_spec (Z.of_nat (length files)) max_files); [lia|].
    destruct (Z.eqb_spec max_files 0); [lia|].
    destruct (Z.ltb_spec 0 max_files); [|lia].
    reflexivity.
Qed.

Lemma cleanup_old_files_keeps_newest_witness :
  0 < 2 < Z.of_nat (length three_snapshots) /\
  cleanup_old_files true three_snapshots (fun _ => true) 2
    = ["snapshots/drowsy_1.jpg"%string] /\
  exists gone kept,
    Permutation three_snapshots (gone ++ kept) /\
    Z.of_nat (length kept) = 2 /\
    (forall a b, In a gone -> In b kept -> mtime a <= mtime b) /\
    cleanup_old_files true three_snapshots (fun _ => true) 2
      = map path (filter (fun f => (fun _ => true) (path f)) gone).
Proof.
  assert (H : 0 < 2 < Z.of_nat (length three_snapshots)) by (cbn; lia).
  split; [exact H|]. split; [reflexivity|].
  exact (cleanup_old_files_keeps_newest three_snapshots (fun _ => true) 2 H).
Defined.

(** ** Email settings, checks and tests *)

Lemma credentials_status mail :
  forallb truthy
    [sender_email (EmailNotifier_init mail);
     sender_password (EmailNotifier_init mail);
     receiver_email (EmailNotifier_init mail)]
  = get_email_config_status mail.
Proof.
  unfold get_email_config_status. cbn.
  now rewrite andb_true_r, andb_assoc.
Qed.

(** X12: [get_email_config_status] tells whether a notifier made from the
    settings will send: when it is false, [send_alert] returns [False]
    whatever the server does; when it is true, [send_alert] returns [True]
    exactly when building the message and every step of the transport
    succeed. *)
Theorem email_status_decides_send_alert mail w :
  (get_email_config_status mail = false ->
   send_alert (EmailNotifier_init mail) w = Return false) /\
  (get_email_config_status mail = true ->
   (send_alert (EmailNotifier_init mail) w = Return true <->
    create_message w = Return tt /\ smtp_connect w = Return tt /\
    smtp_starttls w = Return tt /\ smtp_login w = Return tt /\
    smtp_send_message w = Return tt /\ smtp_exit w = Return tt)).
Proof.
  unfold send_alert. rewrite credentials_status.
  split; intros Hs; rewrite Hs; cbn [negb]; [reflexivity|].
  unfold with_smtp, try_except, bind.
  destruct (create_message w) as [[]|e1], (smtp_connect w) as [[]|e2],
    (smtp_starttls w) as [[]|e3], (smtp_login w) as [[]|e4],
    (smtp_send_message w) as [[]|e5], (smtp_exit w) as [[]|e6];
    (split;
     [ intros Hret; try discriminate Hret; auto 10
     | intros (? & ? & ? & ? & ? & ?); try reflexivity; discriminate ]).
Qed.

Lemma email_status_decides_send_alert_witness :
  get_email_config_status no_password = false /\
  send_alert (EmailNotifier_init no_password) accepting_world = Return false.
Proof.
  split; [reflexivity|].
  exact (proj1 (email_status_decides_send_alert no_password accepting_world)
           eq_refl).
Defined.

(** X13: [validate_config] does not look at the password.  With sender
    and receiver set it reports no email issue even when the password is
    empty, although [get_email_config_status] is then false and no alert
    email is ever sent. *)
Theorem validate_config_ignores_password cfg mail :
  (forall password,
     validate_config cfg
       (mkEmailConfig (SMTP_SERVER mail) (SMTP_PORT mail) (SENDER_EMAIL mail)
                      password (RECEIVER_EMAIL mail))
     = validate_config cfg mail) /\
  (SENDER_EMAIL mail <> ""%string -> RECEIVER_EMAIL mail <> ""%string ->
   SENDER_PASSWORD mail = ""%string ->
   ~ In issue_email (validate_config cfg mail) /\
   get_email_config_status mail = false /\
   forall w, send_alert (EmailNotifier_init mail) w = Return false).
Proof.
  split; [reflexivity|].
  intros Hs Hr Hp.
  assert (Hst : get_email_config_status mail = false).
  { unfold get_email_config_status. rewrite Hp. cbn.
    now rewrite andb_false_r. }
  split; [|split; [exact Hst|]].
  - unfold validate_config, truthy.
    destruct (String.eqb_spec (SENDER_EMAIL mail) ""); [contradiction|].
    destruct (String.eqb_spec (RECEIVER_EMAIL mail) ""); [contradiction|].
    cbn [negb orb]. rewrite app_nil_r.
    intros Hin. apply in_app_or in Hin.
    destruct Hin as [Hin|Hin].
    + destruct (_ || _); [|contradiction].
      destruct Hin as [Hin|[]]. discriminate Hin.
    + destruct (_ <? 1); [|contradiction].
      destruct Hin as [Hin|[]]. discriminate Hin.
  - intros w. unfold send_alert. rewrite credentials_status, Hst. reflexivity.
Qed.

Lemma validate_config_ignores_password_witness :
  (SENDER_EMAIL no_password <> ""%string /\
   RECEIVER_EMAIL no_password <> ""%string /\
   SENDER_PASSWORD no_password = ""%string) /\
  validate_config default_config no_password = [] /\
  get_email_config_status no_password = false.
Proof.
  assert (H1 : SENDER_EMAIL no_password <> ""%string) by discriminate.
  assert (H2 : RECEIVER_EMAIL no_password <> ""%string) by discriminate.
  split; [repeat split; assumption|]. split; [reflexivity|].
  exact (proj1 (proj2 (proj2 (validate_config_ignores_password
                                default_config no_password) H1 H2 eq_refl))).
Defined.

(** X14: [test_email_connection] never raises; it answers [True] exactly
    when the three credentials are set and connecting, STARTTLS, login and
    the closing of the connection succeed.  After such an answer,
    [send_alert] on the same server returns [True] exactly when building and
    sending the message succeed. *)
Theorem test_email_connection_predicts_send_alert self w :
  (exists ok text, test_email_connection self w = Return (ok, text)) /\
  ((exists text, test_email_connection self w = Return (true, text)) <->
   sender_email self <> ""%string /\ sender_password self <> ""%string /\
   receiver_email self <> ""%string /\
   smtp_connect w = Return tt /\ smtp_starttls w = Return tt /\
   smtp_login w = Return tt /\ smtp_exit w = Return tt) /\
  ((exists text, test_email_connection self w = Return (true, text)) ->
   (send_alert self w = Return true <->
    create_message w = Return tt /\ smtp_send_message w = Return tt)).
Proof.
  assert (Hcfg : forallb truthy
                   [sender_email self; sender_password self; receiver_email self]
                 = true <->
                 sender_email self <> ""%string /\
                 sender_password self <> ""%string /\
                 receiver_email self <> ""%string).
  { unfold truthy. cbn [forallb].
    destruct (String.eqb_spec (sender_email self) "");
      destruct (String.eqb_spec (sender_password self) "");
      destruct (String.eqb_spec (receiver_email self) "");
      cbn; intuition congruence. }
  unfold test_email_connection, send_alert, with_smtp, try_except, bind.
  destruct (forallb truthy _) eqn:Hall; cbn [negb].
  - destruct Hcfg as [Hcfg _]. specialize (Hcfg eq_refl).
    destruct Hcfg as (E1 & E2 & E3).
    destruct (create_message w) as [[]|e1], (smtp_connect w) as [[]|e2],
      (smtp_starttls w) as [[]|e3], (smtp_login w) as [[]|e4],
      (smtp_send_message w) as [[]|e5], (smtp_exit w) as [[]|e6];
      (split; [eexists _, _; reflexivity|];
       split;
       [ split;
         [ intros (text & Ht); try discriminate Ht; auto 10
         | intros (_ & _ & _ & ? & ? & ? & ?);
           try (eexists; reflexivity); discriminate ]
       | intros (text & Ht); try discriminate Ht;
         (split;
          [ intros Hret; try discriminate Hret; auto
          | intros (? & ?); try reflexivity; discriminate ]) ]).
  - split; [eexists _, _; reflexivity|].
    split.
    + split; [intros (text & Ht); discriminate Ht|].
      intros (E1 & E2 & E3 & _). destruct Hcfg as [_ Hcfg].
      specialize (Hcfg (conj E1 (conj E2 E3))). congruence.
    + intros (text & Ht). discriminate Ht.
Qed.


Lemma test_email_connection_predicts_send_alert_witness :
  let self := EmailNotifier_init
                (mkEmailConfig "smtp.gmail.com" 587 "driver@example.org"
                               "app-password" "fleet@example.org") in
  (exists text, test_email_connection self accepting_world = Return (true, text)) /\
  send_alert self accepting_world = Return true.
Proof.
  assert (H : exists text,
             test_email_connection
               (EmailNotifier_init
                  (mkEmailConfig "smtp.gmail.com" 587 "driver@example.org"
                                 "app-password" "fleet@example.org"))
               accepting_world = Return (true, text)).
  { eexists. reflexivity. }
  split; [exact H|].
  apply (proj2 (proj2 (test_email_connection_predicts_send_alert _ _)) H).
  split; reflexivity.
Defined.


(** ** The threshold check of [validate_config] *)

Lemma SFcompare_antisym x y :
  SFcompare y x = option_map CompOpp (SFcompare x y).
Proof.
  destruct x as [s1|s1| |s1 m1 e1], y as [s2|s2| |s2 m2 e2];
    try reflexivity; try (destruct s1, s2; reflexivity);
    try (destruct s1; reflexivity); try (destruct s2; reflexivity).
  cbn [SFcompare option_map].
  assert (Hp : Pos.compare_cont Eq m2 m1 = CompOpp (Pos.compare_cont Eq m1 m2))
    by (rewrite Pos.compare_cont_antisym; reflexivity).
  rewrite (Z.compare_antisym e1 e2), Hp.
  destruct s1, s2; cbn; try reflexivity;
    destruct (e1 ?= e2); cbn; try reflexivity;
    destruct (Pos.compare_cont Eq m1 m2); reflexivity.
Qed.

(** [not (x <= y)] on numbers that are not NaN is [y < x]. *)
Lemma not_leb_ltb x y :
  is_nan x = false -> is_nan y = false ->
  (x <=? y)%float = false -> (y <? x)%float = true.
Proof.
  unfold is_nan. rewrite !eqb_spec, leb_spec, ltb_spec.
  unfold SFeqb, SFleb, SFltb. rewrite (SFcompare_antisym (Prim2SF x) (Prim2SF y)).
  intros Hx Hy.
  destruct (SFcompare (Prim2SF x) (Prim2SF y)) as [[]|] eqn:Hc;
    cbn; try discriminate; try reflexivity.
  intros _. exfalso.
  destruct (Prim2SF x) as [s1|s1| |s1 m1 e1], (Prim2SF y) as [s2|s2| |s2 m2 e2];
    cbn in Hx, Hy, Hc; try discriminate.
Qed.

(** X16: when [validate_config] reports no threshold issue, the EAR
    threshold is strictly between 0 and 1 or it is a NaN.  A NaN threshold
    passes the check, and with it no face is ever below the threshold: no
    frame raises the counter or emits an onset. *)
Theorem validate_config_threshold cfg mail :
  (~ In issue_ear (validate_config cfg mail) ->
   is_nan (EAR_THRESHOLD cfg) = false ->
   (0 <? EAR_THRESHOLD cfg)%float = true /\
   (EAR_THRESHOLD cfg <? 1)%float = true) /\
  (is_nan (EAR_THRESHOLD cfg) = true ->
   ~ In issue_ear (validate_config cfg mail) /\
   forall frames d,
     let '(d', outs) := process_frames cfg frames d in
     onsets (concat outs) = 0 /\
     eye_closed_frames d' <= Z.max 0 (eye_closed_frames d)).
Proof.
  assert (Hin : ~ In issue_ear (validate_config cfg mail) <->
                ((EAR_THRESHOLD cfg <=? 0)%float
                 || (1 <=? EAR_THRESHOLD cfg)%float) = false).
  { unfold validate_config.
    destruct ((EAR_THRESHOLD cfg <=? 0)%float || (1 <=? EAR_THRESHOLD cfg)%float).
    - split; [|discriminate]. intros H. exfalso. apply H. now left.
    - split; [reflexivity|]. intros _ H. cbn [app] in H.
      apply in_app_or in H. destruct H as [H|H].
      + destruct (_ <? 1); [|contradiction].
        destruct H as [H|[]]. discriminate H.
      + destruct (_ || _); [|contradiction].
        destruct H as [H|[]]. discriminate H. }
  split.
  - intros Hno Hnan. apply Hin in Hno.
    apply orb_false_iff in Hno. destruct Hno as [H0 H1].
    split; apply not_leb_ltb; (assumption || reflexivity).
  - intros Hnan.
    assert (Hcmp : forall x, SFcompare x (Prim2SF (EAR_THRESHOLD cfg)) = None
                          /\ SFcompare (Prim2SF (EAR_THRESHOLD cfg)) x = None).
    { unfold is_nan in Hnan. rewrite eqb_spec in Hnan. unfold SFeqb in Hnan.
      intros x.
      destruct (Prim2SF (EAR_THRESHOLD cfg)) as [s|s| |s m e].
      - discriminate Hnan.
      - destruct s; discriminate Hnan.
      - split; [now destruct x|reflexivity].
      - exfalso. cbn in Hnan.
        rewrite Z.compare_refl, Pos.compare_cont_refl in Hnan.
        destruct s; discriminate Hnan. }
    split.
    + apply Hin. rewrite !leb_spec. unfold SFleb.
      rewrite (proj1 (Hcmp _)), (proj2 (Hcmp _)). reflexivity.
    + assert (Hhigh : forall ear, (ear <? EAR_THRESHOLD cfg)%float = false).
      { intros ear. rewrite ltb_spec. unfold SFltb.
        now rewrite (proj1 (Hcmp _)). }
      assert (Hfaces : forall now ears d,
                 let '(d', out) := check_faces cfg now ears d in
                 out = [] /\ eye_closed_frames d' <= Z.max 0 (eye_closed_frames d)).
      { intros now ears. induction ears as [|e ears IH]; intros d; cbn.
        - split; [reflexivity|lia].
        - rewrite (check_drowsiness_high cfg now e d (Hhigh e)).
          specialize (IH (set_is_drowsy false (set_eye_closed_frames 0 d))).
          destruct (check_faces cfg now ears _) as [d2 out2].
          destruct IH as [-> IH]. cbn in IH. split; [reflexivity|lia]. }
      intros frames. induction frames as [|fr frames IH]; intros d; cbn.
      * split; [reflexivity|lia].
      * unfold process_frame.
        pose proof (Hfaces (clock fr) (map face_ear (faces fr)) d) as H1.
        destruct (check_faces _ _ _ d) as [d1 out1]. destruct H1 as [-> H1].
        specialize (IH d1).
        destruct (process_frames cfg frames d1) as [d2 outs].
        destruct IH as [IH1 IH2]. cbn [concat app]. split; [exact IH1|lia].
Qed.

Lemma validate_config_threshold_witness :
  let broken := mkConfig nan 20 5 60 in
  (~ In issue_ear (validate_config default_config no_password) /\
   is_nan (EAR_THRESHOLD default_config) = false /\
   (0 <? EAR_THRESHOLD default_config)%float = true /\
   (EAR_THRESHOLD default_config <? 1)%float = true) /\
  (is_nan (EAR_THRESHOLD broken) = true /\
   ~ In issue_ear (validate_config broken no_password)).
Proof.
  assert (H1 : ~ In issue_ear (validate_config default_config no_password)).
  { intros []. }
  split.
  - split; [exact H1|]. split; [reflexivity|].
    exact (proj1 (validate_config_threshold default_config no_password)
             H1 eq_refl).
  - split; [reflexivity|].
    exact (proj1 (proj2 (validate_config_threshold (mkConfig nan 20 5 60)
                           no_password) eq_refl)).
Defined.

(** ** The audio alert *)

Lemma play_repeats_sounds w sound n i :
  let '(r, out) := play_repeats w sound n i in
  (length (filter is_play_sound out) <= n)%nat /\
  Forall (fun e => e = PlaySound sound) out.
Proof.
  revert i. induction n as [|n IH]; intros i; cbn.
  - split; [lia|constructor].
  - destruct (play_at w i); cbn; try (split; [lia|repeat constructor]).
    specialize (IH (S i)).
    destruct (play_repeats w sound n (S i)) as [r out].
    destruct IH as [IH1 IH2]. cbn. split; [lia|now constructor].
Qed.

(** X17: [play_alert] does nothing when an alert is already playing.
    Otherwise it leaves [playing] false whatever fails, starts one and the
    same sound at most [AUDIO_ALERT_REPEATS] times, and falls back to the
    system beep at most once, after the sounds. *)
Theorem play_alert_resets_playing paths repeats self w :
  (playing self = true -> play_alert paths repeats self w = (self, [])) /\
  (playing self = false ->
   let '(self', out) := play_alert paths repeats self w in
   playing self' = false /\
   initialized self' = initialized self /\
   Z.of_nat (length (filter is_play_sound out)) <= Z.max 0 repeats /\
   exists sound k,
     out = repeat (PlaySound sound) k \/
     out = repeat (PlaySound sound) k ++ [SystemBeep]).
Proof.
  split; intros Hp; unfold play_alert; rewrite Hp; [reflexivity|].
  cbn zeta.
  set (sound := match
      match first_loading self w paths with
      | Some _ => first_loading self w paths
      | None => if file_exists w default_sound_path
                then load_sound self w default_sound_path else None
      end
    with
    | Some _ => _
    | None => generate_beep_sound self w
    end).
  cbn [playing initialized]. split; [reflexivity|]. split; [reflexivity|].
  destruct sound as [s|].
  - destruct (initialized self).
    + pose proof (play_repeats_sounds w s (Z.to_nat repeats) 0) as H.
      destruct (play_repeats w s (Z.to_nat repeats) 0) as [r out].
      destruct H as [H1 H2].
      assert (Hrep : out = repeat (PlaySound s) (length out)).
      { clear H1. induction H2 as [|e out He _ IH]; cbn; [reflexivity|].
        now rewrite He, <- IH. }
      destruct r.
      * split; [lia|]. exists s, (length out). now left.
      * split.
        -- rewrite filter_app, length_app. cbn. lia.
        -- exists s, (length out). right. now rewrite <- Hrep.
    + split; [cbn; lia|]. exists s, 0%nat. now right.
  - split; [cbn; lia|]. exists BeepSound, 0%nat. now right.
Qed.

(** X18: when the mixer could not be initialised, [play_alert] starts no
    sound at all, whatever files exist: all that is heard is the system
    beep, once. *)
Theorem play_alert_without_mixer paths repeats self w :
  initialized self = false -> playing self = false ->
  play_alert paths repeats self w = (mkAudioAlert false false, [SystemBeep]).
Proof.
  intros Hi Hp. unfold play_alert. rewrite Hp.
  assert (Hload : forall p, load_sound self w p = None).
  { intros p. unfold load_sound. now rewrite Hi. }
  assert (Hfirst : first_loading self w paths = None).
  { induction paths as [|p paths IH]; cbn; [reflexivity|].
    rewrite Hload. now destruct (truthy p && file_exists w p). }
  rewrite Hfirst, Hload. unfold generate_beep_sound. rewrite Hi. cbn.
  now destruct (file_exists w default_sound_path).
Qed.

Lemma play_alert_without_mixer_witness :
  initialized (mkAudioAlert false false) = false /\
  playing (mkAudioAlert false false) = false /\
  play_alert ["assets/alert.mp3"%string; "assets/alert.wav"%string] 3
             (mkAudioAlert false false) second_file_world
    = (mkAudioAlert false false, [SystemBeep]).
Proof.
  split; [reflexivity|]. split; [reflexivity|].
  exact (play_alert_without_mixer _ 3 (mkAudioAlert false false)
           second_file_world eq_refl eq_refl).
Defined.

Lemma first_loading_first_usable self w before p after :
  initialized self = true ->
  usable w p = true ->
  Forall (fun q => usable w q = false) before ->
  first_loading self w (before ++ p :: after) = Some (FileSound p).
Proof.
  intros Hi Hp Hb.
  assert (Hload : forall q, load_sound self w q =
                    if file_exists w q && sound_loads w q
                    then Some (FileSound q) else None).
  { intros q. unfold load_sound. rewrite Hi. cbn.
    now destruct (file_exists w q), (sound_loads w q). }
  unfold usable in *.
  induction Hb as [|q before Hq _ IH]; cbn.
  - rewrite Hload.
    destruct (truthy p), (file_exists w p), (sound_loads w p);
      try discriminate Hp. reflexivity.
  - rewrite Hload, IH.
    destruct (truthy q), (file_exists w q), (sound_loads w q);
      try discriminate Hq; reflexivity.
Qed.

(** X19: with the mixer initialised and no alert playing, the sound that
    [play_alert] plays is the first of the configured paths that is not
    empty, exists and loads; when the mixer stays up and nothing raises it
    is played [AUDIO_ALERT_REPEATS] times and there is no system beep. *)
Theorem play_alert_plays_first_usable_file before p after repeats self w :
  initialized self = true -> playing self = false ->
  usable w p = true ->
  Forall (fun q => usable w q = false) before ->
  let '(self', out) := play_alert (before ++ p :: after) repeats self w in
  (forall e, In e out -> e = PlaySound (FileSound p) \/ e = SystemBeep) /\
  ((forall i, play_at w i = Played) ->
   out = repeat (PlaySound (FileSound p)) (Z.to_nat repeats)).
Proof.
  intros Hi Hp Hu Hb. unfold play_alert. rewrite Hp.
  rewrite (first_loading_first_usable self w before p after Hi Hu Hb).
  cbn zeta. rewrite Hi.
  pose proof (play_repeats_sounds w (FileSound p) (Z.to_nat repeats) 0) as H.
  assert (Hall : (forall i, play_at w i = Played) ->
                 forall n i, play_repeats w (FileSound p) n i
                             = (Return tt, repeat (PlaySound (FileSound p)) n)).
  { intros Hplayed n. induction n as [|n IH]; intros i; cbn; [reflexivity|].
    now rewrite Hplayed, IH. }
  destruct (play_repeats w (FileSound p) (Z.to_nat repeats) 0) as [r out] eqn:Hr.
  destruct H as [_ H2]. rewrite Forall_forall in H2.
  split.
  - intros e He. destruct r.
    + left. now apply H2.
    + apply in_app_or in He. destruct He as [He|[<-|[]]]; [left|right]; auto.
  - intros Hplayed. rewrite (Hall Hplayed) in Hr.
    injection Hr as <- <-. reflexivity.
Qed.

Lemma play_alert_plays_first_usable_file_witness :
  let self := mkAudioAlert true false in
  (initialized self = true /\ playing self = false /\
   usable second_file_world "assets/alert.wav"%string = true /\
   Forall (fun q => usable second_file_world q = false)
          ["assets/alert.mp3"%string]) /\
  play_alert (["assets/alert.mp3"%string] ++
              "assets/alert.wav"%string :: ["sounds/beep.mp3"%string])
             3 self second_file_world
    = (self, repeat (PlaySound (FileSound "assets/alert.wav")) 3).
Proof.
  assert (Hb : Forall (fun q => usable second_file_world q = false)
                 ["assets/alert.mp3"%string]).
  { repeat constructor. }
  split; [repeat split; exact Hb|].
  pose proof (play_alert_plays_first_usable_file
                ["assets/alert.mp3"%string] "assets/alert.wav"%string
                ["sounds/beep.mp3"%string] 3 (mkAudioAlert true false)
                second_file_world eq_refl eq_refl eq_refl Hb) as H.
  destruct (play_alert _ _ _ _) as [self' out] eqn:E.
  destruct H as [_ H]. rewrite (H (fun _ => eq_refl)).
  cbn in E. injection E as <- _. reflexivity.
Defined.

Lemma play_alert_resets_playing_witness :
  playing (mkAudioAlert true true) = true /\
  play_alert ["assets/alert.wav"%string] 3 (mkAudioAlert true true)
             second_file_world
    = (mkAudioAlert true true, []).
Proof.
  split; [reflexivity|].
  exact (proj1 (play_alert_resets_playing ["assets/alert.wav"%string] 3
                  (mkAudioAlert true true) second_file_world) eq_refl).
Defined.

(** ** Updating the configuration over the web *)

(** X20: [update_config] is not atomic.  When the value of
    [ear_threshold] converts and the value of [frames_threshold] does not,
    the answer reports a failure and the new EAR threshold stays in force,
    the other three settings being as before.  A setting whose key is not
    in the body is never changed. *)
Theorem update_config_is_not_atomic parse_float parse_int data cfg :
  (forall v x v' e,
     dict_get "ear_threshold" data = Some v ->
     py_float parse_float v = Return x ->
     dict_get "frames_threshold" data = Some v' ->
     py_int parse_int v' = Raise e ->
     update_config parse_float parse_int data cfg
       = (mkConfig x (DROWSINESS_FRAMES_THRESHOLD cfg)
                   (AUDIO_ALERT_COOLDOWN cfg) (EMAIL_ALERT_COOLDOWN cfg),
          false)) /\
  (let cfg' := fst (update_config parse_float parse_int data cfg) in
   (dict_get "ear_threshold" data = None ->
    EAR_THRESHOLD cfg' = EAR_THRESHOLD cfg) /\
   (dict_get "frames_threshold" data = None ->
    DROWSINESS_FRAMES_THRESHOLD cfg' = DROWSINESS_FRAMES_THRESHOLD cfg) /\
   (dict_get "audio_alert_cooldown" data = None ->
    AUDIO_ALERT_COOLDOWN cfg' = AUDIO_ALERT_COOLDOWN cfg) /\
   (dict_get "email_alert_cooldown" data = None ->
    EMAIL_ALERT_COOLDOWN cfg' = EMAIL_ALERT_COOLDOWN cfg)).
Proof.
  split.
  - intros v x v' e H1 Hx H2 He. unfold update_config.
    rewrite H1, Hx. cbn [bind]. rewrite H2, He. reflexivity.
  - cbn zeta. unfold update_config.
    destruct (dict_get "ear_threshold" data) as [v1|];
      [destruct (py_float parse_float v1) as [x|e1]|]; cbn [bind];
      try (repeat split; intros; (reflexivity || discriminate));
      (destruct (dict_get "frames_threshold" data) as [v2|];
       [destruct (py_int parse_int v2) as [n2|e2]|]; cbn [bind];
       try (repeat split; intros; (reflexivity || discriminate));
       (destruct (dict_get "audio_alert_cooldown" data) as [v3|];
        [destruct (py_int parse_int v3) as [n3|e3]|]; cbn [bind];
        try (repeat split; intros; (reflexivity || discriminate));
        (destruct (dict_get "email_alert_cooldown" data) as [v4|];
         [destruct (py_int parse_int v4) as [n4|e4]|]; cbn [bind];
         repeat split; intros; (reflexivity || discriminate)))).
Qed.

Lemma update_config_is_not_atomic_witness :
  let data := [("ear_threshold"%string, JFloat 0.5%float);
               ("frames_threshold"%string, JNull)] in
  update_config no_float no_int data default_config
    = (mkConfig 0.5%float 20 5 60, false).
Proof.
  exact (proj1 (update_config_is_not_atomic no_float no_int
                  [("ear_threshold"%string, JFloat 0.5%float);
                   ("frames_threshold"%string, JNull)] default_config)
           (JFloat 0.5%float) 0.5%float JNull (Exception "TypeError")
           eq_refl eq_refl eq_refl eq_refl).
Defined.

(** X21: [update_config] applies no check of [validate_config].  A body
    that sets [frames_threshold] to a number below 1 is accepted, although
    [validate_config] reports the resulting setting; with a frame threshold
    of 1 or less the debounce is gone: from Alert, a single face below the
    EAR threshold emits the onset. *)
Theorem update_config_can_disable_debounce parse_float parse_int cfg n :
  n <= 1 ->
  let '(cfg', ok) :=
    update_config parse_float parse_int
                  [("frames_threshold"%string, JInt n)] cfg in
  ok = true /\
  cfg' = mkConfig (EAR_THRESHOLD cfg) n (AUDIO_ALERT_COOLDOWN cfg)
                  (EMAIL_ALERT_COOLDOWN cfg) /\
  (n < 1 -> forall mail, In issue_frames (validate_config cfg' mail)) /\
  (forall now ear d,
     is_drowsy d = false -> 0 <= eye_closed_frames d ->
     (ear <? EAR_THRESHOLD cfg)%float = true ->
     let '(d', out) := check_drowsiness cfg' now ear d in
     onsets out = 1 /\ is_drowsy d' = true).
Proof.
  intros Hn. cbn.
  split; [reflexivity|]. split; [reflexivity|]. split.
  - intros Hlt mail. unfold validate_config.
    cbn [DROWSINESS_FRAMES_THRESHOLD].
    apply Z.ltb_lt in Hlt. rewrite Hlt.
    apply in_or_app. right. apply in_or_app. left. now left.
  - intros now ear d Hd Hc Hlow.
    pose proof (check_drowsiness_low
                  (mkConfig (EAR_THRESHOLD cfg) n (AUDIO_ALERT_COOLDOWN cfg)
                            (EMAIL_ALERT_COOLDOWN cfg)) now ear d Hlow) as H.
    destruct (check_drowsiness _ now ear d) as [d' out].
    cbn zeta in H. cbn [DROWSINESS_FRAMES_THRESHOLD] in H.
    destruct H as (_ & Hd' & Ho & _).
    rewrite Hd in Hd', Ho. cbn [negb andb orb] in Hd', Ho.
    assert (Hle : (n <=? eye_closed_frames d + 1) = true)
      by (apply Z.leb_le; lia).
    rewrite Hle in Hd', Ho. split; assumption.
Qed.

Lemma update_config_can_disable_debounce_witness :
  0 <= 1 /\
  fst (update_config no_float no_int [("frames_threshold"%string, JInt 0)]
         default_config)
    = mkConfig 0.25%float 0 5 60.
Proof.
  split; [lia|].
  pose proof (update_config_can_disable_debounce no_float no_int
                default_config 0 ltac:(lia)) as H.
  destruct (update_config _ _ _ _) as [cfg' ok].
  destruct H as (_ & H & _). exact H.
Defined.

(** ** Rendering a duration *)

Lemma format_duration_hour_parts seconds :
  seconds / 3600 = seconds / 60 / 60 /\
  (seconds mod 3600) / 60 = (seconds / 60) mod 60.
Proof.
  split.
  - rewrite Z.div_div by lia. reflexivity.
  - change 3600 with (60 * 60).
    rewrite Z.rem_mul_r by lia.
    rewrite Z.add_comm, Z.mul_comm, Z.div_add_l by lia.
    rewrite (Z.div_small (seconds mod 60)) by (apply Z.mod_pos_bound; lia).
    lia.
Qed.

(** X22: [format_duration] of a whole, non-negative number of seconds
    shows the parts of its division into hours, minutes below 60 and
    seconds below 60; from one hour on the seconds are left out, so that
    two durations of at least an hour within the same minute are rendered
    by the same text. *)
Theorem format_duration_shows_parts seconds :
  0 <= seconds ->
  (exists h m s,
     seconds = h * 3600 + m * 60 + s /\
     0 <= h /\ 0 <= m < 60 /\ 0 <= s < 60 /\
     format_duration seconds =
       if 0 <? h then
         String.append (py_str_int h)
           (String.append "h " (String.append (py_str_int m) "m"))
       else if 0 <? m then
         String.append (py_str_int m)
           (String.append "m " (String.append (py_str_int s) "s"))
       else String.append (py_str_int s) "s") /\
  (forall seconds',
     3600 <= seconds -> seconds' / 60 = seconds / 60 ->
     format_duration seconds' = format_duration seconds).
Proof.
  intros Hpos. split.
  - exists (seconds / 3600), ((seconds mod 3600) / 60), (seconds mod 60).
    pose proof (format_duration_hour_parts seconds) as [Hh Hm].
    pose proof (Z.div_mod seconds 60 ltac:(lia)) as E1.
    pose proof (Z.div_mod (seconds / 60) 60 ltac:(lia)) as E2.
    pose proof (Z.mod_pos_bound seconds 60 ltac:(lia)) as B1.
    pose proof (Z.mod_pos_bound (seconds / 60) 60 ltac:(lia)) as B2.
    assert (0 <= seconds / 60) by (apply Z.div_pos; lia).
    assert (0 <= seconds / 60 / 60) by (apply Z.div_pos; lia).
    rewrite Hh, Hm.
    split; [lia|]. split; [lia|]. split; [lia|]. split; [lia|].
    unfold format_duration. rewrite Hh, Hm.
    destruct (seconds <? 60) eqn:E60.
    + apply Z.ltb_lt in E60.
      rewrite (Z.div_small seconds 60) by lia.
      rewrite (Z.mod_small seconds 60) by lia.
      reflexivity.
    + apply Z.ltb_ge in E60.
      destruct (seconds <? 3600) eqn:E3600.
      * apply Z.ltb_lt in E3600.
        assert (Hq : seconds / 60 < 60)
          by (apply Z.div_lt_upper_bound; lia).
        assert (Hq1 : 1 <= seconds / 60)
          by (apply Z.div_le_lower_bound; lia).
        rewrite (Z.div_small (seconds / 60) 60) by lia.
        rewrite (Z.mod_small (seconds / 60) 60) by lia.
        cbn [Z.ltb Z.compare].
        assert (Hp : (0 <? seconds / 60) = true) by (apply Z.ltb_lt; lia).
        rewrite Hp. reflexivity.
      * apply Z.ltb_ge in E3600.
        assert (Hq : 1 <= seconds / 60 / 60).
        { apply Z.div_le_lower_bound; [lia|].
          apply Z.div_le_lower_bound; lia. }
        assert (Hp : (0 <? seconds / 60 / 60) = true)
          by (apply Z.ltb_lt; lia).
        rewrite Hp. reflexivity.
  - intros seconds' Hhour Hsame.
    assert (Hq : 60 <= seconds / 60) by (apply Z.div_le_lower_bound; lia).
    assert (Hs' : 3600 <= seconds').
    { pose proof (Z.div_mod seconds' 60 ltac:(lia)).
      pose proof (Z.mod_pos_bound seconds' 60 ltac:(lia)). lia. }
    unfold format_duration.
    assert (E1 : (seconds <? 60) = false) by (apply Z.ltb_ge; lia).
    assert (E2 : (seconds <? 3600) = false) by (apply Z.ltb_ge; lia).
    assert (E3 : (seconds' <? 60) = false) by (apply Z.ltb_ge; lia).
    assert (E4 : (seconds' <? 3600) = false) by (apply Z.ltb_ge; lia).
    rewrite E1, E2, E3, E4.
    destruct (format_duration_hour_parts seconds) as [-> ->].
    destruct (format_duration_hour_parts seconds') as [-> ->].
    rewrite Hsame. reflexivity.
Qed.

Lemma format_duration_shows_parts_witness :
  0 <= 3600 /\ format_duration 3659 = format_duration 3600.
Proof.
  split; [lia|].
  exact (proj2 (format_duration_shows_parts 3600 ltac:(lia)) 3659
           ltac:(lia) eq_refl).
Defined.
